(** * togetherai-image-mcp-server: the generate_image tool handler

    A shallow embedding of [src/index.ts]: the argument validator
    [isValidGenerateImageArgs] and the [CallToolRequestSchema] handler, with
    the file system, the clock, the diagnostic stream and the two external
    collaborators (the hosted image API and the imaging library) made
    explicit as a world that the handler threads through its steps. *)

From Stdlib Require Import ZArith String Ascii List Lia Bool.
From Corelib Require Import SpecFloat.
From stdpp Require Import base option gmap sets list strings pretty.

Set Warnings "-register-all,-clear-no-such-hyp".
Local Open Scope string_scope.
Local Open Scope Z_scope.

(** ** JavaScript numbers

    A JS number is an IEEE 754 binary64 value.  The standard library's
    [spec_float] is used at precision 53 and maximal exponent 1024, so that
    zeros carry a sign, and infinities and NaN exist, as they do in the
    running program. *)

Abbreviation number := spec_float (only parsing).

Module Num.

Definition prec : Z := 53.
Definition emax : Z := 1024.

(** The number denoted by an integer literal or an integer count. *)
Definition of_Z (z : Z) : number := binary_normalize prec emax z 0 false.
Definition of_N (k : N) : number := of_Z (Z.of_N k).

Definition nan : number := S754_nan.

Definition is_nan (x : number) : bool :=
  match x with S754_nan => true | _ => false end.

Definition is_zero (x : number) : bool :=
  match x with S754_zero _ => true | _ => false end.

(** ToBoolean on a number: [+0], [-0] and [NaN] are falsy. *)
Definition truthy (x : number) : bool := negb (is_zero x || is_nan x).

(** [a < b]: false as soon as one side is NaN. *)
Definition lt (a b : number) : bool := SFltb a b.

Definition div (a b : number) : number := SFdiv prec emax a b.
Definition mul (a b : number) : number := SFmul prec emax a b.

(** [Math.max(a, b)]: NaN if either is NaN; [+0] is larger than [-0]. *)
Definition max (a b : number) : number :=
  match SFcompare a b with
  | None => nan
  | Some Lt => b
  | Some Gt => a
  | Some Eq =>
      match a with
      | S754_zero true => b
      | _ => a
      end
  end.

(** The integer a finite number denotes, when it denotes one. *)
Definition to_Z (x : number) : option Z :=
  match x with
  | S754_zero _ => Some 0
  | S754_finite s m e =>
      let v := cond_Zopp s (Z.pos m) in
      match e with
      | Z0 => Some v
      | Z.pos p => Some (v * 2 ^ Z.pos p)
      | Z.neg p =>
          if (Z.pos m mod 2 ^ Z.pos p =? 0)
          then Some (v / 2 ^ Z.pos p) else None
      end
  | _ => None
  end.

(** [Math.round(x)]: the integer nearest to [x], ties towards +infinity;
    NaN, the infinities and the zeros are returned as they are, and a
    result of zero keeps the sign of [x]. *)
Definition round (x : number) : number :=
  match x with
  | S754_finite s m (Z.neg p) =>
      let d := 2 ^ Z.pos p in
      let k := (2 * cond_Zopp s (Z.pos m) + d) / (2 * d) in
      if k =? 0 then S754_zero s else of_Z k
  | _ => x
  end.

End Num.

(** ** JavaScript strings *)

Module Str.

(** [s.replace(pat, rep)] with a string pattern: only the first
    occurrence of [pat] is replaced ([rep] holds no [$] pattern here). *)
Fixpoint replace (pat rep s : string) : string :=
  if String.prefix pat s
  then rep ++ String.substring (String.length pat)
                (String.length s - String.length pat) s
  else match s with
       | EmptyString => EmptyString
       | String c s' => String c (replace pat rep s')
       end.

(** ToBoolean on a string: only the empty string is falsy. *)
Definition truthy (s : string) : bool :=
  match s with EmptyString => false | _ => true end.

(** A template literal's rendering of an integer-valued number. *)
Definition of_Z (z : Z) : string := pretty z.
Definition of_nat (i : nat) : string := pretty i.

End Str.

(** ** Untyped values

    The request payload is an [any]: the values JSON can carry, plus
    [undefined] for what is absent. *)

Inductive JSValue : Type :=
  | JSUndefined
  | JSNull
  | JSBool (b : bool)
  | JSNumber (x : number)
  | JSString (s : string)
  | JSArray (l : list JSValue)
  | JSObject (o : gmap string JSValue).

Abbreviation JSObj := (gmap string JSValue) (only parsing).

(** The [typeof] operator. *)
Definition typeof (v : JSValue) : string :=
  match v with
  | JSUndefined => "undefined"
  | JSNull => "object"
  | JSBool _ => "boolean"
  | JSNumber _ => "number"
  | JSString _ => "string"
  | JSArray _ => "object"
  | JSObject _ => "object"
  end.

(** [v === undefined] and [v !== null]. *)
Definition is_undefined (v : JSValue) : bool :=
  match v with JSUndefined => true | _ => false end.

Definition is_null (v : JSValue) : bool :=
  match v with JSNull => true | _ => false end.

(** ToBoolean. *)
Definition truthy (v : JSValue) : bool :=
  match v with
  | JSUndefined | JSNull => false
  | JSBool b => b
  | JSNumber x => Num.truthy x
  | JSString s => Str.truthy s
  | JSArray _ | JSObject _ => true
  end.

(** Property read [v.k] for the property names the program uses.  A missing
    property reads as [undefined]; an array has none of the eight names the
    handler reads. *)
Definition get_prop (v : JSValue) (k : string) : JSValue :=
  match v with
  | JSObject o => default JSUndefined (o !! k)
  | _ => JSUndefined
  end.

(** [lits.includes(v)] for an array literal of strings: SameValueZero makes
    a string equal to a string with the same characters and to nothing
    else. *)
Definition includes (lits : list string) (v : JSValue) : bool :=
  match v with
  | JSString s => existsb (String.eqb s) lits
  | _ => false
  end.

(** ** The argument validator (index.ts, lines 31-44) *)

Definition isValidGenerateImageArgs (args : JSValue) : bool :=
  String.eqb (typeof args) "object" &&
  negb (is_null args) &&
  String.eqb (typeof (get_prop args "prompt")) "string" &&
  (is_undefined (get_prop args "model")
   || String.eqb (typeof (get_prop args "model")) "string") &&
  (is_undefined (get_prop args "width")
   || String.eqb (typeof (get_prop args "width")) "number") &&
  (is_undefined (get_prop args "height")
   || String.eqb (typeof (get_prop args "height")) "number") &&
  (is_undefined (get_prop args "steps")
   || String.eqb (typeof (get_prop args "steps")) "number") &&
  (is_undefined (get_prop args "n")
   || String.eqb (typeof (get_prop args "n")) "number") &&
  (is_undefined (get_prop args "outputDir")
   || String.eqb (typeof (get_prop args "outputDir")) "string") &&
  (is_undefined (get_prop args "format")
   || includes ["png"; "jpg"; "svg"] (get_prop args "format")).

(** ** Paths (the [path] module, POSIX flavour)

    A path is a string.  [path.resolve] and [path.join] normalise: empty
    and [.] segments disappear and [..] removes the segment before it. *)

Module Path.

Fixpoint split (s : string) : list string :=
  match s with
  | EmptyString => [EmptyString]
  | String c s' =>
      if Ascii.eqb c "/" then EmptyString :: split s'
      else match split s' with
           | seg :: rest => String c seg :: rest
           | [] => [String c EmptyString]
           end
  end.

Definition step (acc : list string) (seg : string) : list string :=
  if String.eqb seg "" || String.eqb seg "." then acc
  else if String.eqb seg ".." then removelast acc
  else acc ++ [seg].

(** The segments of an absolute path once normalised. *)
Definition segments (p : string) : list string :=
  fold_left step (split p) [].

Definition render_segments (segs : list string) : string :=
  fold_right (fun seg acc => "/" ++ seg ++ acc) "" segs.

Definition render (segs : list string) : string :=
  match segs with
  | [] => "/"
  | _ => render_segments segs
  end.

Definition normalize (p : string) : string := render (segments p).

(** [path.resolve(p)] in a process whose working directory is [cwd]. *)
Definition resolve (cwd p : string) : string :=
  if String.prefix "/" p then normalize p
  else normalize (cwd ++ "/" ++ p).

(** [path.join(a, b)] for an absolute [a]. *)
Definition join (a b : string) : string := normalize (a ++ "/" ++ b).

(** [path.dirname(p)] of an absolute path. *)
Definition dirname (p : string) : string :=
  render (removelast (segments p)).

(** The directories [mkdir -p] has to find or make: every non-empty
    prefix of the path, the outermost first. *)
Fixpoint prefixes (acc segs : list string) : list string :=
  match segs with
  | [] => []
  | seg :: rest => render (acc ++ [seg]) :: prefixes (acc ++ [seg]) rest
  end.

Definition ancestors (p : string) : list string := prefixes [] (segments p).

End Path.

(** ** The world around the handler *)

Inductive Codec := PNG | JPEG.

(** A raster image as the imaging library sees it: its pixel size. *)
Record Image := mkImage { img_width : N; img_height : N }.

Inductive File :=
  | ImageFile (c : Codec) (img : Image)
  | OtherFile.

(** The body of [together.images.create]. *)
Record ApiRequest := mkApiRequest {
  req_model : string;
  req_prompt : string;
  req_width : number;
  req_height : number;
  req_steps : number;
  req_n : number;
  req_response_format : string
}.

(** What the handler does to the outside, in the order it does it. *)
Inductive Event :=
  | ApiCall (req : ApiRequest)
  | Mkdir (dir : string)
  | Resize (targetWidth targetHeight : number)
  | WriteFile (path : string) (c : Codec) (img : Image)
  | Warn (msg : string)
  | LogError (msg : string).

Record World := mkWorld {
  files : gmap string File;
  dirs : gset string;
  ticks : nat;
  trace : list Event
}.

(** A thrown [Error]: the catch clause reads only its [message]. *)
Record Exn := mkExn { exn_message : string }.

(** What the handler cannot decide: the working directory, the wall clock
    (one reading per [new Date()]), the hosted API's answer to a request,
    and which base64 payloads the imaging library can read as an image. *)
Record Env := mkEnv {
  cwd : string;
  clock : nat -> Z;
  images_create : ApiRequest -> Exn + list JSObj;
  decode : string -> option Image
}.

(** ** Steps that may throw and that change the world *)

Definition M (A : Type) : Type := World -> (Exn + A) * World.

Definition ret {A} (a : A) : M A := fun w => (inr a, w).

Definition throw {A} (msg : string) : M A := fun w => (inl (mkExn msg), w).

Definition bind {A B} (m : M A) (k : A -> M B) : M B :=
  fun w =>
    match m w with
    | (inr a, w') => k a w'
    | (inl e, w') => (inl e, w')
    end.

Notation "'let*' x ':=' m 'in' k" := (bind m (fun x => k))
  (at level 10, x name, m at level 100, k at level 200).

Definition emit (ev : Event) : M unit :=
  fun w => (inr tt, mkWorld (files w) (dirs w) (ticks w) (trace w ++ [ev])).

(** [new Date().getTime()]. *)
Definition now (env : Env) : M Z :=
  fun w => (inr (clock env (ticks w)),
            mkWorld (files w) (dirs w) (S (ticks w)) (trace w)).

(** [await this.together.images.create(req)]. *)
Definition together_images_create (env : Env) (req : ApiRequest)
  : M (list JSObj) :=
  let* _ := emit (ApiCall req) in
  fun w =>
    match images_create env req with
    | inl e => (inl e, w)
    | inr data => (inr data, w)
    end.

(** *** The file system *)

Definition is_dir (w : World) (p : string) : bool :=
  String.eqb p "/" || bool_decide (p ∈ dirs w).

Definition is_file (w : World) (p : string) : bool :=
  bool_decide (is_Some (files w !! p)).

(** [fs.existsSync(p)]. *)
Definition fs_existsSync (p : string) : M bool :=
  fun w => (inr (is_dir w p || is_file w p), w).

(** [fs.mkdirSync(p, { recursive: true })]: fails when a file stands where
    a directory is needed. *)
Definition fs_mkdirSync (p : string) : M unit :=
  fun w =>
    if existsb (is_file w) (Path.ancestors p)
    then (inl (mkExn ("ENOTDIR: not a directory, mkdir '" ++ p ++ "'")), w)
    else (inr tt,
          mkWorld (files w) (dirs w ∪ list_to_set (Path.ancestors p))
                  (ticks w) (trace w ++ [Mkdir p])).

(** *** The imaging library

    A buffer holds either the bytes decoded from a base64 payload or the
    output of an earlier pipeline. *)

Inductive Buffer :=
  | Base64Bytes (payload : string)
  | Raster (img : Image).

(** [Buffer.from(v, 'base64')]: defined on strings.  The API is asked for
    base64 text, so [b64_json] is a string or is missing; whatever is not
    a string is rejected as [undefined] is. *)
Definition Buffer_from (v : JSValue) : M Buffer :=
  match v with
  | JSString s => ret (Base64Bytes s)
  | _ => throw "The first argument must be of type string or an instance of Buffer, ArrayBuffer, or Array or an Array-like Object."
  end.

(** Reading the input of a pipeline. *)
Definition sharp_input (env : Env) (buffer : Buffer) : M Image :=
  match buffer with
  | Raster img => ret img
  | Base64Bytes s =>
      match decode env s with
      | Some img => ret img
      | None => throw "Input buffer contains unsupported image format"
      end
  end.

(** [sharp(buffer).metadata()]. *)
Definition sharp_metadata (env : Env) (buffer : Buffer) : M Image :=
  sharp_input env buffer.

(** A resize dimension has to be a positive integer. *)
Definition positive_integer (x : number) : option N :=
  match Num.to_Z x with
  | Some (Z.pos p) => Some (N.pos p)
  | _ => None
  end.

(** [sharp(buffer).resize(w, h, { fit: 'contain', background }).toBuffer()]:
    with [contain] the output fills the whole target box, the image is
    letterboxed on the background. *)
Definition sharp_resize (env : Env) (buffer : Buffer)
    (targetWidth targetHeight : number) : M Buffer :=
  let* _ := emit (Resize targetWidth targetHeight) in
  match positive_integer targetWidth, positive_integer targetHeight with
  | Some tw, Some th =>
      let* _ := sharp_input env buffer in
      ret (Raster (mkImage tw th))
  | None, _ => throw "Expected positive integer for width"
  | _, None => throw "Expected positive integer for height"
  end.

(** [sharp(buffer).png().toFile(p)] and [.jpeg({ quality: 90 }).toFile(p)]:
    the codec re-encodes the pixels and keeps their size. *)
Definition sharp_toFile (env : Env) (buffer : Buffer) (c : Codec)
    (p : string) : M unit :=
  let* img := sharp_input env buffer in
  fun w =>
    if is_dir w (Path.dirname p) && negb (is_dir w p)
    then (inr tt,
          mkWorld (<[p := ImageFile c img]> (files w)) (dirs w) (ticks w)
                  (trace w ++ [WriteFile p c img]))
    else (inl (mkExn (p ++ ": unable to open for write")), w).

(** [sharp(p).metadata()]. *)
Definition sharp_file_metadata (p : string) : M Image :=
  fun w =>
    match files w !! p with
    | Some (ImageFile _ img) => (inr img, w)
    | Some OtherFile =>
        (inl (mkExn "Input file contains unsupported image format"), w)
    | None => (inl (mkExn ("Input file is missing: " ++ p)), w)
    end.

(** ** The tool handler (index.ts, lines 141-275) *)

Inductive ErrorCode := MethodNotFound | InvalidParams | InternalError.

Record McpError := mkMcpError { code : ErrorCode; message : string }.

Record Request := mkRequest { name : string; arguments : JSValue }.

(** [v || d] for an operand declared [number | undefined] and for one
    declared [string | undefined]: the types the guard has established. *)
Definition number_or (v : JSValue) (d : number) : number :=
  match v with
  | JSNumber x => if Num.truthy x then x else d
  | _ => d
  end.

Definition string_or (v : JSValue) (d : string) : string :=
  match v with
  | JSString s => if Str.truthy s then s else d
  | _ => d
  end.

(** [args.prompt], a string once the guard has passed. *)
Definition prompt_of (args : JSValue) : string :=
  match get_prop args "prompt" with
  | JSString s => s
  | _ => ""
  end.

(** Lines 159-164. *)
Definition requestWidth (args : JSValue) : number :=
  number_or (get_prop args "width") (Num.of_Z 1024).

Definition requestHeight (args : JSValue) : number :=
  number_or (get_prop args "height") (Num.of_Z 768).

Definition apiWidth (args : JSValue) : number :=
  Num.max (Num.of_Z 256) (requestWidth args).

Definition apiHeight (args : JSValue) : number :=
  Num.max (Num.of_Z 256) (requestHeight args).

(** Lines 166-174: the request sent to the API. *)
Definition api_request (args : JSValue) : ApiRequest :=
  {| req_model := string_or (get_prop args "model")
                    "black-forest-labs/FLUX.1.1-pro";
     req_prompt := prompt_of args;
     req_width := apiWidth args;
     req_height := apiHeight args;
     req_steps := number_or (get_prop args "steps") (Num.of_Z 28);
     req_n := number_or (get_prop args "n") (Num.of_Z 1);
     req_response_format := "base64" |}.

(** Lines 177-179. *)
Definition outputDir (env : Env) (args : JSValue) : string :=
  match get_prop args "outputDir" with
  | JSString s =>
      if Str.truthy s then Path.resolve (cwd env) s
      else Path.join (cwd env) "output"
  | _ => Path.join (cwd env) "output"
  end.

(** Line 222. *)
Definition format_of (args : JSValue) : string :=
  string_or (get_prop args "format") "png".

(** Lines 198-209: the two assignments of the width branch and then the
    two of the height branch, in program order. *)
Definition target_dimensions
    (requestWidth requestHeight originalWidth originalHeight : number)
  : number * number :=
  let aspectRatio := Num.div originalWidth originalHeight in
  let targetWidth := requestWidth in
  let targetHeight := requestHeight in
  let '(targetWidth, targetHeight) :=
    if Num.lt requestWidth (Num.of_Z 256)
    then (requestWidth, Num.round (Num.div requestWidth aspectRatio))
    else (targetWidth, targetHeight) in
  let '(targetWidth, targetHeight) :=
    if Num.lt requestHeight (Num.of_Z 256)
    then (Num.round (Num.mul requestHeight aspectRatio), requestHeight)
    else (targetWidth, targetHeight) in
  (targetWidth, targetHeight).

(** [metadata.width || 0]. *)
Definition or_zero (x : number) : number :=
  if Num.truthy x then x else Num.of_Z 0.

(** Lines 191-218: the conditional resize of one decoded buffer. *)
Definition resize_if_needed (env : Env) (args : JSValue) (buffer : Buffer)
  : M Buffer :=
  if Num.lt (requestWidth args) (Num.of_Z 256)
     || Num.lt (requestHeight args) (Num.of_Z 256)
  then
    let* metadata := sharp_metadata env buffer in
    let originalWidth := or_zero (Num.of_N (img_width metadata)) in
    let originalHeight := or_zero (Num.of_N (img_height metadata)) in
    let '(targetWidth, targetHeight) :=
      target_dimensions (requestWidth args) (requestHeight args)
                        originalWidth originalHeight in
    sharp_resize env buffer targetWidth targetHeight
  else ret buffer.

(** Line 223. *)
Definition filename_of (timestamp : Z) (index : nat) (format : string)
  : string :=
  "image_" ++ Str.of_Z timestamp ++ "_" ++ Str.of_nat index ++ "." ++ format.

(** Lines 228-244: the format switch. *)
Definition persist (env : Env) (format filepath : string) (buffer : Buffer)
  : M unit :=
  if String.eqb format "png" then
    sharp_toFile env buffer PNG filepath
  else if String.eqb format "jpg" then
    sharp_toFile env buffer JPEG filepath
  else if String.eqb format "svg" then
    let* _ := sharp_toFile env buffer PNG
                (Str.replace ".svg" ".png" filepath) in
    emit (Warn "SVG output is not fully supported yet")
  else ret tt.

Definition size_object (width height : number) : JSValue :=
  JSObject (<["height" := JSNumber height]> {["width" := JSNumber width]}).

(** Lines 246-257: the entry returned for one image. *)
Definition entry (result : JSObj) (filepath filename : string)
    (original final : JSValue) : JSObj :=
  <["dimensions" :=
      JSObject (<["final" := final]> {["original" := original]})]>
    (<["filename" := JSString filename]>
       (<["filepath" := JSString filepath]> result)).

(** Lines 220-257: naming the file, writing it, reading it back. *)
Definition save_and_report (env : Env) (args : JSValue) (outputDir : string)
    (result : JSObj) (index : nat) (buffer : Buffer) : M JSObj :=
  let* timestamp := now env in
  let format := format_of args in
  let filename := filename_of timestamp index format in
  let filepath := Path.join outputDir filename in
  let* _ := persist env format filepath buffer in
  let* m := sharp_file_metadata filepath in
  ret (entry result filepath filename
         (size_object (apiWidth args) (apiHeight args))
         (size_object (Num.of_N (img_width m)) (Num.of_N (img_height m)))).

(** Lines 187-258: the callback mapped over [response.data]. *)
Definition process_image (env : Env) (args : JSValue) (outputDir : string)
    (result : JSObj) (index : nat) : M JSObj :=
  let imageData := get_prop (JSObject result) "b64_json" in
  let* buffer := Buffer_from imageData in
  let* buffer := resize_if_needed env args buffer in
  save_and_report env args outputDir result index buffer.

(** [Promise.all(response.data.map(callback))]: the callbacks are started
    in index order and the results come back in that order.  The model runs
    each callback to its end before the next one starts, which is one of
    the schedules the event loop allows. *)
Fixpoint process_all (env : Env) (args : JSValue) (outputDir : string)
    (data : list JSObj) (index : nat) : M (list JSObj) :=
  match data with
  | [] => ret []
  | result :: rest =>
      let* r := process_image env args outputDir result index in
      let* rs := process_all env args outputDir rest (S index) in
      ret (r :: rs)
  end.

(** Lines 176-258: from the API's answer to the list of entries. *)
Definition store_images (env : Env) (args : JSValue) (data : list JSObj)
  : M (list JSObj) :=
  let outputDir := outputDir env args in
  let* present := fs_existsSync outputDir in
  let* _ := if negb present then fs_mkdirSync outputDir else ret tt in
  process_all env args outputDir data 0%nat.

(** Lines 156-267: the body of the [try] block.  The value returned stands
    for the response, whose one text item is [JSON.stringify(results)]. *)
Definition generate (env : Env) (args : JSValue) : M (list JSObj) :=
  let* data := together_images_create env (api_request args) in
  store_images env args data.

(** [error?.message || 'Unknown error']. *)
Definition message_or_unknown (error : Exn) : string :=
  if Str.truthy (exn_message error) then exn_message error
  else "Unknown error".

(** Lines 268-274: the [catch] clause. *)
Definition on_error (error : Exn) (w : World) : McpError * World :=
  (mkMcpError InternalError
     ("Image generation failed: " ++ message_or_unknown error),
   mkWorld (files w) (dirs w) (ticks w)
     (trace w ++ [LogError ("Together AI API error: " ++ exn_message error)])).

(** The [CallToolRequestSchema] handler. *)
Definition handler (env : Env) (request : Request) (w : World)
  : (McpError + list JSObj) * World :=
  if negb (String.eqb (name request) "generate_image") then
    (inl (mkMcpError MethodNotFound ("Unknown tool: " ++ name request)), w)
  else if negb (truthy (arguments request))
          || negb (isValidGenerateImageArgs (arguments request)) then
    (inl (mkMcpError InvalidParams "Invalid generate_image arguments"), w)
  else
    match generate env (arguments request) w with
    | (inr results, w') => (inr results, w')
    | (inl error, w') =>
        let '(e, w'') := on_error error w' in (inl e, w'')
    end.

(** ** A concrete setting for examples *)

Module Demo.

Definition square : Image := mkImage 512 512.
Definition landscape : Image := mkImage 1024 768.

Definition env : Env :=
  {| cwd := "/home/user";
     clock := fun k => 1700000000000 + Z.of_nat k;
     images_create := fun _ =>
       inr [ {["b64_json" := JSString "SQUARE"]} ;
             {["b64_json" := JSString "LANDSCAPE"]} ];
     decode := fun s =>
       if String.eqb s "SQUARE" then Some square
       else if String.eqb s "LANDSCAPE" then Some landscape
       else None |}.

(** The API's second image is one the imaging library cannot read. *)
Definition env_second_unreadable : Env :=
  {| cwd := "/home/user";
     clock := fun k => 1700000000000 + Z.of_nat k;
     images_create := fun _ =>
       inr [ {["b64_json" := JSString "SQUARE"]} ;
             {["b64_json" := JSString "NOT AN IMAGE"]} ];
     decode := decode env |}.

Definition empty_world : World := mkWorld ∅ ∅ 0 [].

(** A disk on which the default output directory is already there. *)
Definition ready_world : World :=
  mkWorld ∅ {["/home/user/output"]} 0 [].

Definition call (args : JSObj) : Request :=
  mkRequest "generate_image" (JSObject args).

(** An svg request into a directory whose own name holds [.svg]. *)
Definition svg_into_svg_directory : Request :=
  call (<["outputDir" := JSString "/srv/art.svg"]>
          (<["format" := JSString "svg"]> {["prompt" := JSString "a cat"]})).

(** A disk on which [/srv/art.png] happens to be a directory. *)
Definition world_with_png_directory : World :=
  mkWorld ∅ {["/srv/art.png"]} 0 [].

End Demo.

(** ** The validator's contract

    The shape the specification asks of a request payload: an object with
    a string [prompt]; [model] and [outputDir], when present, strings;
    [width], [height], [steps] and [n], when present, numbers of any
    value; [format], when present, one of three literals.  A property
    holding [undefined] counts as absent, as it does for the program. *)

Definition is_string (v : JSValue) : Prop := ∃ s, v = JSString s.

Definition is_number (v : JSValue) : Prop := ∃ x, v = JSNumber x.

Definition is_format (v : JSValue) : Prop :=
  v = JSString "png" ∨ v = JSString "jpg" ∨ v = JSString "svg".

Definition if_present (P : JSValue → Prop) (o : JSObj) (k : string) : Prop :=
  match o !! k with
  | None | Some JSUndefined => True
  | Some v => P v
  end.

Definition well_formed_args (args : JSValue) : Prop :=
  ∃ o : JSObj,
    args = JSObject o ∧
    (∃ s, o !! "prompt" = Some (JSString s)) ∧
    if_present is_string o "model" ∧
    if_present is_number o "width" ∧
    if_present is_number o "height" ∧
    if_present is_number o "steps" ∧
    if_present is_number o "n" ∧
    if_present is_string o "outputDir" ∧
    if_present is_format o "format".


(** ** Vocabulary for reasoning about runs *)

Local Open Scope list_scope.

(** A step keeps a relation between the world before and the world after,
    whatever it returns or throws. *)
Definition preserves {A} (R : relation World) (m : M A) : Prop :=
  ∀ w r w', m w = (r, w') → R w w'.

(** The run appended events, all of them satisfying [P]. *)
Definition emits (P : Event → Prop) (w w' : World) : Prop :=
  ∃ evs, trace w' = trace w ++ evs ∧ Forall P evs.

(** No file disappeared, and every file the run wrote is on disk. *)
Definition keeps (w w' : World) : Prop :=
  ∃ evs, trace w' = trace w ++ evs ∧
         dom (files w) ⊆ dom (files w') ∧
         ∀ p c img, WriteFile p c img ∈ evs → is_Some (files w' !! p).



(** Every character of the string satisfies [P]. *)
Fixpoint all_chars (P : ascii → Prop) (s : string) : Prop :=
  match s with
  | EmptyString => True
  | String c s' => P c ∧ all_chars P s'
  end.

(** What [Math.max(256, x)] is expected to be for the clamped dimension
    of a request: the given number when it counts as given, the default
    otherwise. *)
Definition clamped (v : JSValue) (default : Z) : number :=
  match v with
  | JSNumber x =>
      if Num.truthy x then Num.max (Num.of_Z 256) x
      else Num.max (Num.of_Z 256) (Num.of_Z default)
  | _ => Num.max (Num.of_Z 256) (Num.of_Z default)
  end.

(** The image the imaging library reads out of a buffer. *)
Definition holds (env : Env) (buffer : Buffer) (img : Image) : Prop :=
  match buffer with
  | Raster i => i = img
  | Base64Bytes s => decode env s = Some img
  end.

(** The error code of an outcome, if it is an error. *)
Definition outcome_code (r : McpError + list JSObj) : option ErrorCode :=
  match r with
  | inl e => Some (code e)
  | inr _ => None
  end.

(** A character that is none of the separators the file names and paths
    are built with. *)
Definition plain (c : ascii) : Prop :=
  c ≠ "_"%char ∧ c ≠ "."%char ∧ c ≠ "/"%char.

(** A path segment that normalisation leaves alone. *)
Definition simple_segment (f : string) : Prop :=
  all_chars (λ c, c ≠ "/"%char) f ∧ f ≠ "" ∧ f ≠ "." ∧ f ≠ "..".

(** The entry built for the API result [d] at position [index]: [d]
    itself with [filepath], [filename] and [dimensions] set. *)
Definition is_entry_of (args : JSValue) (dir : string) (index : nat)
    (d r : JSObj) : Prop :=
  ∃ timestamp final,
    let filename := filename_of timestamp index (format_of args) in
    r = entry d (Path.join dir filename) filename
          (size_object (apiWidth args) (apiHeight args)) final.

(** The [filepath] property of an entry. *)
Definition filepath_of (r : JSObj) : JSValue :=
  get_prop (JSObject r) "filepath".

Definition no_output (ev : Event) : Prop :=
  match ev with WriteFile _ _ _ | Warn _ => False | _ => True end.

(** A run that touched no file, read no clock and warned of nothing. *)
Definition quiet (w w' : World) : Prop :=
  files w' = files w ∧ ticks w' = ticks w ∧ emits no_output w w'.

(** The world the [catch] clause leaves. *)
Definition logged (error : Exn) (w : World) : World := (on_error error w).2.


(** The text holds no occurrence of [.svg]. *)
Definition svg_free (s : string) : Prop :=
  ∀ a b, s ≠ a +:+ ".svg" +:+ b.

(** ** Vocabulary for the rest of the handler's behaviour *)

(** The codec and the path the format switch (lines 228-244) writes
    with. *)
Definition codec_of (format : string) : Codec :=
  if String.eqb format "jpg" then JPEG else PNG.

Definition written_path (format filepath : string) : string :=
  if String.eqb format "svg" then Str.replace ".svg" ".png" filepath
  else filepath.

(** The run changed the disk at no path but those it logged a write for,
    and removed no directory. *)
Definition touches_only_written (w w' : World) : Prop :=
  ∃ evs, trace w' = trace w ++ evs ∧
         dirs w ⊆ dirs w' ∧
         ∀ p, (∀ c img, WriteFile p c img ∉ evs) →
              files w' !! p = files w !! p.

Definition is_ApiCall (ev : Event) : Prop :=
  match ev with ApiCall _ => True | _ => False end.

Definition is_LogError (ev : Event) : Prop :=
  match ev with LogError _ => True | _ => False end.

(** An event of a png or jpg run that stores into [dir]: a write is of a
    file named by [filename_of] directly under [dir], with an index of at
    least [k] and the codec of the format, and there is no warning. *)
Definition stores_under (format dir : string) (k : nat) (ev : Event) : Prop :=
  match ev with
  | WriteFile p c _ =>
      ∃ timestamp index, (k ≤ index)%nat ∧ c = codec_of format ∧
        p = Path.join dir (filename_of timestamp index format)
  | Warn _ => False
  | _ => True
  end.

(** The clock was not read. *)
Definition same_ticks (w w' : World) : Prop := ticks w' = ticks w.

(** The eight property names the validator and the handler read. *)
Definition recognized_fields : list string :=
  ["prompt"; "model"; "width"; "height"; "steps"; "n"; "outputDir"; "format"].

(** The size of what is stored for the API result [d]: the decoded
    payload as it is when no requested dimension is below 256, and an
    image of exactly the resize targets otherwise. *)
Definition stored_size (env : Env) (args : JSValue) (d : JSObj)
    (source img : Image) : Prop :=
  (∃ payload, d !! "b64_json" = Some (JSString payload) ∧
              decode env payload = Some source) ∧
  if Num.lt (requestWidth args) (Num.of_Z 256)
     || Num.lt (requestHeight args) (Num.of_Z 256)
  then
    let targets :=
      target_dimensions (requestWidth args) (requestHeight args)
        (or_zero (Num.of_N (img_width source)))
        (or_zero (Num.of_N (img_height source))) in
    positive_integer targets.1 = Some (img_width img) ∧
    positive_integer targets.2 = Some (img_height img)
  else img = source.

(** The entry [r] built for the API result [d] at position [index] reports
    a file that is on disk in [w']: its filepath holds the image [img] in
    the codec of the format, and [img]'s size is [dimensions.final]. *)
Definition entry_on_disk (args : JSValue) (dir : string) (index : nat)
    (d r : JSObj) (w' : World) (timestamp : Z) (img : Image) : Prop :=
  let filename := filename_of timestamp index (format_of args) in
  let filepath := Path.join dir filename in
  r = entry d filepath filename
        (size_object (apiWidth args) (apiHeight args))
        (size_object (Num.of_N (img_width img))
                     (Num.of_N (img_height img))) ∧
  files w' !! filepath
  = Some (ImageFile (codec_of (format_of args)) img).

Definition reports_stored (env : Env) (args : JSValue) (dir : string)
    (index : nat) (d r : JSObj) (w' : World) : Prop :=
  ∃ timestamp source img,
    stored_size env args d source img ∧
    entry_on_disk args dir index d r w' timestamp img.


(** ** The tool registry (index.ts, lines 76-139)

    The answer to a [ListToolsRequestSchema] request, the object literal
    of the source as a value. *)

Definition schema_property (type description : string) : JSObj :=
  <["description" := JSString description]> {["type" := JSString type]}.

Definition generate_image_properties : JSObj :=
  <["prompt" := JSObject
      (schema_property "string" "Text description of the image to generate")]>
 (<["model" := JSObject
      (<["default" := JSString "black-forest-labs/FLUX.1.1-pro"]>
         (schema_property "string" "Model to use for generation"))]>
 (<["width" := JSObject
      (<["default" := JSNumber (Num.of_Z 1024)]>
         (schema_property "number" "Image width in pixels"))]>
 (<["height" := JSObject
      (<["default" := JSNumber (Num.of_Z 768)]>
         (schema_property "number" "Image height in pixels"))]>
 (<["steps" := JSObject
      (<["default" := JSNumber (Num.of_Z 28)]>
         (schema_property "number" "Number of inference steps"))]>
 (<["n" := JSObject
      (<["default" := JSNumber (Num.of_Z 1)]>
         (schema_property "number" "Number of images to generate"))]>
 (<["outputDir" := JSObject
      (<["examples" := JSArray
           [JSString "/Users/asanstefanski/Private Projekte/democline/src/assets"]]>
      (<["pattern" := JSString "^/"]>
         (schema_property "string"
            "Full absolute path where images will be saved (e.g., /Users/username/Projects/myapp/src/assets)")))]>
 (<["format" := JSObject
      (<["default" := JSString "png"]>
      (<["enum" := JSArray [JSString "png"; JSString "jpg"; JSString "svg"]]>
         (schema_property "string" "Output format for the generated images")))]>
  ∅))))))).

Definition generate_image_inputSchema : JSObj :=
  <["required" := JSArray [JSString "prompt"]]>
 (<["properties" := JSObject generate_image_properties]>
    {["type" := JSString "object"]}).

Definition generate_image_tool : JSObj :=
  <["inputSchema" := JSObject generate_image_inputSchema]>
 (<["uiSchema" := JSObject
      {["format" := JSObject
          (<["ui:options" := JSObject
               (<["position" := JSString "above-chat"]>
                  {["label" := JSString "Image Format"]})]>
             {["ui:widget" := JSString "select"]})]}]>
 (<["description" := JSString "Generate an image using Together AI"]>
    {["name" := JSString "generate_image"]})).

Definition list_tools : JSValue :=
  JSObject {["tools" := JSArray [JSObject generate_image_tool]]}.

(** The default the schema advertises for a property, [undefined] when
    it advertises none. *)
Definition schema_default (k : string) : JSValue :=
  get_prop
    (get_prop (get_prop (JSObject generate_image_inputSchema) "properties") k)
    "default".

(** Two argument objects that the handler cannot tell apart. *)
Definition same_settings (env : Env) (a b : JSValue) : Prop :=
  api_request a = api_request b ∧
  requestWidth a = requestWidth b ∧
  requestHeight a = requestHeight b ∧
  outputDir env a = outputDir env b ∧
  format_of a = format_of b.

(** The run removed no directory and made none. *)
Definition same_dirs (w w' : World) : Prop := dirs w' = dirs w.


(** ** More concrete settings *)

Module Cases.

(** The generation API is down. *)
Definition env_api_down : Env :=
  {| cwd := "/home/user";
     clock := fun k => 1700000000000 + Z.of_nat k;
     images_create := fun _ => inl (mkExn "Request timed out");
     decode := decode Demo.env |}.



End Cases.
Section Validator.

Variable o : JSObj.

Lemma guard_string k :
  is_undefined (get_prop (JSObject o) k)
  || String.eqb (typeof (get_prop (JSObject o) k)) "string" = true
  ↔ if_present is_string o k.
Proof.
  unfold if_present, is_string, get_prop.
  destruct (o !! k) as [[]|]; simpl; naive_solver.
Qed.

Lemma guard_number k :
  is_undefined (get_prop (JSObject o) k)
  || String.eqb (typeof (get_prop (JSObject o) k)) "number" = true
  ↔ if_present is_number o k.
Proof.
  unfold if_present, is_number, get_prop.
  destruct (o !! k) as [[]|]; simpl; naive_solver.
Qed.

Lemma includes_format v :
  includes ["png"; "jpg"; "svg"] v = true ↔ is_format v.
Proof.
  unfold is_format. destruct v; simpl; try naive_solver.
  rewrite !orb_true_iff, !String.eqb_eq. naive_solver.
Qed.

Lemma guard_format k :
  is_undefined (get_prop (JSObject o) k)
  || includes ["png"; "jpg"; "svg"] (get_prop (JSObject o) k) = true
  ↔ if_present is_format o k.
Proof.
  unfold if_present, get_prop.
  destruct (o !! k) as [v|]; simpl; [|done].
  rewrite orb_true_iff, includes_format.
  destruct v; simpl; unfold is_format; naive_solver.
Qed.

Lemma guard_prompt :
  String.eqb (typeof (get_prop (JSObject o) "prompt")) "string" = true
  ↔ ∃ s, o !! "prompt" = Some (JSString s).
Proof.
  unfold get_prop. destruct (o !! "prompt") as [[]|]; simpl; naive_solver.
Qed.

End Validator.

Lemma valid_iff_well_formed (args : JSValue) :
  isValidGenerateImageArgs args = true ↔ well_formed_args args.
Proof.
  unfold well_formed_args.
  destruct args as [| |b|x|s|l|o];
    try (split; [cbn; discriminate | intros (o' & ? & _); discriminate]).
  unfold isValidGenerateImageArgs.
    rewrite !andb_true_iff.
    rewrite guard_prompt, !guard_string, !guard_number, guard_format.
  simpl. split.
  - intros (((((((((_ & _) & ?) & ?) & ?) & ?) & ?) & ?) & ?) & ?).
    exists o. auto 10.
  - intros (o' & [= <-] & ? & ? & ? & ? & ? & ? & ? & ?). auto 12.
Qed.

(** C7: the validator accepts exactly the payloads of the shape the
    specification describes: a non-null object with a string prompt, with
    string model and outputDir, number width, height, steps and n (no
    bounds), and a format among png, jpg and svg, each only if present. *)
Theorem validator_accepts_exactly_well_formed (args : JSValue) :
  isValidGenerateImageArgs args = true ↔ well_formed_args args.
Proof. apply valid_iff_well_formed. Qed.

(** ** Strings, file names and paths *)

Lemma app_cons c s t : String c s +:+ t = String c (s +:+ t).
Proof. reflexivity. Qed.

Lemma app_empty_l s : "" +:+ s = s.
Proof. reflexivity. Qed.

Lemma app_empty_r s : s +:+ "" = s.
Proof. induction s as [|c s IH]; [done|]. by rewrite app_cons, IH. Qed.

Lemma string_app_assoc s t u : (s +:+ t) +:+ u = s +:+ t +:+ u.
Proof. induction s as [|c s IH]; [done|]. by rewrite !app_cons, IH. Qed.

Lemma all_chars_app P s t :
  all_chars P (s +:+ t) ↔ all_chars P s ∧ all_chars P t.
Proof.
  induction s as [|c s IH]; [simpl; naive_solver|].
  rewrite app_cons. simpl. rewrite IH. naive_solver.
Qed.

Lemma all_chars_impl (P Q : ascii → Prop) s :
  (∀ c, P c → Q c) → all_chars P s → all_chars Q s.
Proof. intros HPQ. induction s; simpl; naive_solver. Qed.

(** Two strings cut at the first occurrence of a separator agree on both
    sides of the cut. *)
Lemma app_separator_inj c a a' b b' :
  all_chars (λ x, x ≠ c) a → all_chars (λ x, x ≠ c) a' →
  a +:+ String c b = a' +:+ String c b' → a = a' ∧ b = b'.
Proof.
  revert a'. induction a as [|x a IH]; intros [|x' a']; simpl;
    rewrite ?app_cons; intros Ha Ha' Heq.
  - by injection Heq.
  - injection Heq as -> _. by destruct Ha' as [[] _].
  - injection Heq as -> _. by destruct Ha as [[] _].
  - injection Heq as -> Heq. destruct Ha as [_ Ha], Ha' as [_ Ha'].
    destruct (IH a' Ha Ha' Heq) as [-> ->]. done.
Qed.

Lemma pretty_N_char_plain d : plain (pretty_N_char d).
Proof.
  unfold pretty_N_char, plain. repeat case_match; split_and!; discriminate.
Qed.

Lemma pretty_N_go_plain x :
  ∀ s, all_chars plain s → all_chars plain (pretty_N_go x s).
Proof.
  induction (N.lt_wf_0 x) as [x _ IH]. intros s Hs.
  destruct (decide (x = 0)%N) as [->|Hx]; [by rewrite pretty_N_go_0|].
  rewrite pretty_N_go_step by lia.
  apply IH; [apply N.div_lt; lia|]. simpl. split; [|done].
  apply pretty_N_char_plain.
Qed.

Lemma pretty_N_plain (x : N) : all_chars plain (pretty x).
Proof.
  unfold pretty, pretty_N. case_decide.
  - simpl. split; [|done]. split_and!; discriminate.
  - by apply pretty_N_go_plain.
Qed.

Lemma pretty_nat_plain (i : nat) : all_chars plain (pretty i).
Proof. apply pretty_N_plain. Qed.

Lemma pretty_Z_plain (z : Z) : all_chars plain (pretty z).
Proof.
  destruct z as [|p|p]; unfold pretty, pretty_Z.
  - simpl. split; [|done]. split_and!; discriminate.
  - apply pretty_N_plain.
  - rewrite app_cons. simpl. split; [split_and!; discriminate|].
    apply pretty_N_plain.
Qed.

(** The index alone tells two file names of one call apart. *)
Lemma filename_of_inj ts ts' i j format :
  filename_of ts i format = filename_of ts' j format → i = j.
Proof.
  unfold filename_of, Str.of_Z, Str.of_nat.
  rewrite !app_cons, !app_empty_l. intros [= Heq].
  apply app_separator_inj in Heq as [_ Heq];
    [|eapply all_chars_impl, pretty_Z_plain; by intros c (? & _)..].
  apply app_separator_inj in Heq as [Heq _];
    [|eapply all_chars_impl, pretty_nat_plain; by intros c (_ & ? & _)..].
  by apply (inj pretty) in Heq.
Qed.

Lemma filename_of_simple ts i format :
  format = "png" ∨ format = "jpg" ∨ format = "svg" →
  simple_segment (filename_of ts i format).
Proof.
  intros Hformat. unfold simple_segment, filename_of, Str.of_Z, Str.of_nat.
  split; [|by rewrite !app_cons].
  rewrite !app_cons, !app_empty_l. simpl. repeat (split; [discriminate|]).
  apply all_chars_app. split.
  { eapply all_chars_impl, pretty_Z_plain. by intros c (_ & _ & ?). }
  simpl. split; [discriminate|].
  apply all_chars_app. split.
  { eapply all_chars_impl, pretty_nat_plain. by intros c (_ & _ & ?). }
  simpl. split; [discriminate|].
  destruct Hformat as [-> | [-> | ->]]; simpl; split_and!; done.
Qed.

Lemma split_nonempty s : Path.split s ≠ [].
Proof.
  destruct s as [|c s]; simpl; [done|].
  destruct (Ascii.eqb c "/"); [done|]. by destruct (Path.split s).
Qed.

Lemma split_app_slash a b :
  Path.split (a +:+ String "/" b) = Path.split a ++ Path.split b.
Proof.
  induction a as [|c a IH]; [done|].
  rewrite app_cons. simpl. rewrite IH.
  destruct (Ascii.eqb c "/"); [done|].
  pose proof (split_nonempty a). by destruct (Path.split a).
Qed.

Lemma split_simple f :
  all_chars (λ c, c ≠ "/"%char) f → Path.split f = [f].
Proof.
  induction f as [|c f IH]; [done|]. simpl. intros [Hc Hf].
  apply Ascii.eqb_neq in Hc as ->. by rewrite IH.
Qed.

Lemma render_segments_snoc segs f :
  Path.render_segments (segs ++ [f]) = Path.render_segments segs +:+ "/" +:+ f.
Proof.
  induction segs as [|seg segs IH]; simpl.
  - by rewrite app_empty_r.
  - rewrite IH. by rewrite !string_app_assoc.
Qed.

(** Joining a directory and a file name appends the name to the
    normalised directory. *)
Lemma join_simple dir f :
  simple_segment f →
  Path.join dir f = Path.render_segments (Path.segments dir) +:+ "/" +:+ f.
Proof.
  intros (Hchars & Hne & Hdot & Hdots).
  unfold Path.join, Path.normalize, Path.segments.
  rewrite app_cons, app_empty_l, split_app_slash, (split_simple f Hchars), fold_left_app. simpl.
  unfold Path.step at 1.
  apply String.eqb_neq in Hne as ->. apply String.eqb_neq in Hdot as ->.
  apply String.eqb_neq in Hdots as ->. simpl.
  etrans; [|apply render_segments_snoc].
  unfold Path.render. by destruct (fold_left _ _ _).
Qed.

Lemma join_inj dir f f' :
  simple_segment f → simple_segment f' →
  Path.join dir f = Path.join dir f' → f = f'.
Proof.
  intros Hf Hf'. rewrite !join_simple by done.
  intros Heq%(inj (String.append _)). by injection Heq.
Qed.

(** ** Running steps *)

Section Preserves.

Context (R : relation World) `{!PreOrder R}.

Lemma preserves_ret {A} (a : A) : preserves R (ret a).
Proof. intros w r w' [= <- <-]. reflexivity. Qed.

Lemma preserves_throw {A} msg : preserves R (@throw A msg).
Proof. intros w r w' [= <- <-]. reflexivity. Qed.

Lemma preserves_bind {A B} (m : M A) (k : A → M B) :
  preserves R m → (∀ a, preserves R (k a)) → preserves R (bind m k).
Proof.
  intros Hm Hk w r w'. unfold bind.
  destruct (m w) as [[e|a] w1] eqn:E.
  - intros [= <- <-]. eauto.
  - intros Hrun. transitivity w1; [eauto | eapply Hk; eauto].
Qed.

Lemma preserves_if {A} (b : bool) (m1 m2 : M A) :
  preserves R m1 → preserves R m2 → preserves R (if b then m1 else m2).
Proof. by destruct b. Qed.

End Preserves.

Global Instance emits_preorder P : PreOrder (emits P).
Proof.
  split.
  - intros w. exists []. by rewrite app_nil_r.
  - intros w1 w2 w3 (e1 & H1 & F1) (e2 & H2 & F2).
    exists (e1 ++ e2). rewrite H2, H1, app_assoc.
    split; [done | by apply Forall_app].
Qed.

Global Instance keeps_preorder : PreOrder keeps.
Proof.
  split.
  - intros w. exists []. rewrite app_nil_r.
    split_and!; [done | done | intros ??? H; by apply elem_of_nil in H].
  - intros w1 w2 w3 (e1 & H1 & D1 & K1) (e2 & H2 & D2 & K2).
    exists (e1 ++ e2). rewrite H2, H1, app_assoc.
    split_and!; [done | set_solver |].
    intros p c img [Hin|Hin]%elem_of_app; [|eauto].
    apply K1 in Hin. apply elem_of_dom in Hin. apply elem_of_dom. set_solver.
Qed.

Lemma preserves_unchanged {A} (R : relation World) `{!Reflexive R} (m : M A) :
  (∀ w, (m w).2 = w) → preserves R m.
Proof.
  intros Hm w r w' Hrun. specialize (Hm w). rewrite Hrun in Hm.
  simpl in Hm. by subst.
Qed.

Lemma Buffer_from_unchanged v w : (Buffer_from v w).2 = w.
Proof. by destruct v. Qed.

Lemma sharp_input_unchanged env buffer w : (sharp_input env buffer w).2 = w.
Proof. destruct buffer as [s|img]; simpl; [|done]. by destruct (decode env s). Qed.

Lemma sharp_file_metadata_unchanged p w : (sharp_file_metadata p w).2 = w.
Proof.
  unfold sharp_file_metadata. by destruct (files w !! p) as [[]|].
Qed.

Lemma fs_existsSync_unchanged p w : (fs_existsSync p w).2 = w.
Proof. done. Qed.

Lemma keeps_intro w w' evs :
  trace w' = trace w ++ evs →
  files w' = files w →
  (∀ p c img, WriteFile p c img ∉ evs) →
  keeps w w'.
Proof.
  intros Ht Hf Hn. exists evs. rewrite Hf.
  split_and!; [done | done | intros p c img Hin; by apply Hn in Hin].
Qed.

Lemma keeps_emit ev :
  (∀ p c img, ev ≠ WriteFile p c img) → preserves keeps (emit ev).
Proof.
  intros Hev w r w' [= <- <-]. apply (keeps_intro _ _ [ev]); [done..|].
  intros p c img Hin%list_elem_of_singleton. by eapply Hev.
Qed.

Lemma keeps_now env : preserves keeps (now env).
Proof.
  intros w r w' [= <- <-]. apply (keeps_intro _ _ []); simpl;
    [by rewrite app_nil_r | done | intros ???; apply not_elem_of_nil].
Qed.

Lemma keeps_create env req : preserves keeps (together_images_create env req).
Proof.
  apply preserves_bind; [apply _ | by apply keeps_emit |].
  intros _. apply preserves_unchanged; [apply _|].
  intros w. by destruct (images_create env req).
Qed.

Lemma keeps_mkdir p : preserves keeps (fs_mkdirSync p).
Proof.
  intros w r w'. unfold fs_mkdirSync.
  destruct (existsb _ _); intros [= <- <-]; [reflexivity|].
  apply (keeps_intro _ _ [Mkdir p]); [done..|].
  by intros ??? [=]%list_elem_of_singleton.
Qed.

Lemma keeps_toFile env buffer c p : preserves keeps (sharp_toFile env buffer c p).
Proof.
  apply preserves_bind; [apply _| |].
  - apply preserves_unchanged; [apply _ | apply sharp_input_unchanged].
  - intros img w r w'.
    destruct (_ && _); intros [= <- <-]; [|reflexivity].
    exists [WriteFile p c img]. simpl. split_and!; [done | set_solver |].
    intros p' c' img' [= <- <- <-]%list_elem_of_singleton.
    by rewrite lookup_insert_eq.
Qed.

Lemma keeps_resize env buffer tw th :
  preserves keeps (sharp_resize env buffer tw th).
Proof.
  apply preserves_bind; [apply _ | by apply keeps_emit |].
  intros _.
  destruct (positive_integer tw), (positive_integer th);
    try apply preserves_throw; try apply _.
  apply preserves_bind; [apply _ | | intros; apply preserves_ret; apply _].
  apply preserves_unchanged; [apply _ | apply sharp_input_unchanged].
Qed.

Lemma keeps_persist env format filepath buffer :
  preserves keeps (persist env format filepath buffer).
Proof.
  unfold persist.
  repeat apply preserves_if; try apply keeps_toFile.
  - apply preserves_bind; [apply _ | apply keeps_toFile |].
    intros _. by apply keeps_emit.
  - apply preserves_ret; apply _.
Qed.

Lemma keeps_resize_if_needed env args buffer :
  preserves keeps (resize_if_needed env args buffer).
Proof.
  unfold resize_if_needed.
  apply preserves_if; [|apply preserves_ret; apply _].
  apply preserves_bind; [apply _| |].
  - apply preserves_unchanged; [apply _ | apply sharp_input_unchanged].
  - intros m. destruct (target_dimensions _ _ _ _). apply keeps_resize.
Qed.

Lemma keeps_save_and_report env args dir result index buffer :
  preserves keeps (save_and_report env args dir result index buffer).
Proof.
  unfold save_and_report.
  apply preserves_bind; [apply _|apply keeps_now|intros ts].
  apply preserves_bind; [apply _|apply keeps_persist|intros _].
  apply preserves_bind; [apply _| |intros; apply preserves_ret; apply _].
  apply preserves_unchanged; [apply _ | apply sharp_file_metadata_unchanged].
Qed.

Lemma keeps_process_image env args dir result index :
  preserves keeps (process_image env args dir result index).
Proof.
  unfold process_image.
  apply preserves_bind; [apply _| |intros buffer].
  { apply preserves_unchanged; [apply _ | apply Buffer_from_unchanged]. }
  apply preserves_bind; [apply _|apply keeps_resize_if_needed|intros buffer'].
  apply keeps_save_and_report.
Qed.

Lemma keeps_process_all env args dir data :
  ∀ index, preserves keeps (process_all env args dir data index).
Proof.
  induction data as [|result rest IH]; intros index; simpl.
  - apply preserves_ret; apply _.
  - apply preserves_bind; [apply _|apply keeps_process_image|intros r].
    apply preserves_bind; [apply _|apply IH|intros; apply preserves_ret; apply _].
Qed.

Lemma keeps_store_images env args data :
  preserves keeps (store_images env args data).
Proof.
  unfold store_images.
  apply preserves_bind; [apply _| |intros present].
  { apply preserves_unchanged; [apply _ | apply fs_existsSync_unchanged]. }
  apply preserves_bind; [apply _| |intros _; apply keeps_process_all].
  apply preserves_if; [apply keeps_mkdir | apply preserves_ret; apply _].
Qed.

Lemma keeps_generate env args : preserves keeps (generate env args).
Proof.
  unfold generate.
  apply preserves_bind; [apply _|apply keeps_create|intros data].
  apply keeps_store_images.
Qed.

(** ** The guard and the dispatch *)

Lemma valid_is_truthy args : isValidGenerateImageArgs args = true → truthy args = true.
Proof. destruct args; try done; cbn; discriminate. Qed.

Lemma handler_valid env request w :
  name request = "generate_image" →
  isValidGenerateImageArgs (arguments request) = true →
  handler env request w =
    match generate env (arguments request) w with
    | (inr results, w') => (inr results, w')
    | (inl error, w') => let '(e, w'') := on_error error w' in (inl e, w'')
    end.
Proof.
  intros Hname Hvalid. unfold handler.
  rewrite Hname, Hvalid, (valid_is_truthy _ Hvalid). reflexivity.
Qed.

Lemma bind_ok {A B} (m : M A) (k : A → M B) w a w1 :
  m w = (inr a, w1) → bind m k w = k a w1.
Proof. unfold bind. by intros ->. Qed.

Lemma bind_err {A B} (m : M A) (k : A → M B) w e w1 :
  m w = (inl e, w1) → bind m k w = (inl e, w1).
Proof. unfold bind. by intros ->. Qed.

Lemma bind_assoc {A B C} (m : M A) (k1 : A → M B) (k2 : B → M C) w :
  bind (bind m k1) k2 w = bind m (λ a, bind (k1 a) k2) w.
Proof. unfold bind. by destruct (m w) as [[e|a] w1]. Qed.

Lemma keeps_trace w w' : keeps w w' → ∃ evs, trace w' = trace w ++ evs.
Proof. intros (evs & ? & _). eauto. Qed.

Lemma together_images_create_run env req w :
  together_images_create env req w
  = (images_create env req,
     mkWorld (files w) (dirs w) (ticks w) (trace w ++ [ApiCall req])).
Proof.
  unfold together_images_create, bind, emit.
  by destruct (images_create env req).
Qed.

Lemma generate_starts_with_api_call env args w :
  ∃ evs, trace (generate env args w).2
         = trace w ++ ApiCall (api_request args) :: evs.
Proof.
  destruct (generate env args w) as [r w'] eqn:Hrun. simpl.
  revert Hrun. unfold generate, bind. rewrite together_images_create_run.
  destruct (images_create env (api_request args)) as [e|data].
  - intros [= <- <-]. by exists [].
  - intros [evs Hevs]%keeps_store_images%keeps_trace.
    exists evs. rewrite Hevs. simpl. by rewrite <-app_assoc.
Qed.

Lemma handler_starts_with_api_call env request w :
  name request = "generate_image" →
  isValidGenerateImageArgs (arguments request) = true →
  ∃ evs, trace (handler env request w).2
         = trace w ++ ApiCall (api_request (arguments request)) :: evs.
Proof.
  intros Hname Hvalid. rewrite handler_valid by done.
  destruct (generate_starts_with_api_call env (arguments request) w)
    as [evs Hevs].
  destruct (generate env (arguments request) w) as [[e|results] w'];
    simpl in *.
  - eexists. rewrite Hevs, <-app_assoc. reflexivity.
  - eauto.
Qed.

Lemma handler_valid_code env request w :
  name request = "generate_image" →
  isValidGenerateImageArgs (arguments request) = true →
  outcome_code (handler env request w).1 = None ∨
  outcome_code (handler env request w).1 = Some InternalError.
Proof.
  intros Hname Hvalid. rewrite handler_valid by done.
  destruct (generate env (arguments request) w) as [[e|results] w']; auto.
Qed.

(** ** Settled claims *)

(** C9: a generate_image call whose arguments are missing (falsy) or fail
    validation throws the invalid-parameters error and leaves the world
    exactly as it was: no API call, no directory, no file, no log line. *)
Theorem invalid_arguments_rejected_without_effects env request w :
  name request = "generate_image" →
  truthy (arguments request) = false
  ∨ isValidGenerateImageArgs (arguments request) = false →
  handler env request w
  = (inl (mkMcpError InvalidParams "Invalid generate_image arguments"), w).
Proof.
  intros Hname Hbad. unfold handler. rewrite Hname. simpl.
  by destruct Hbad as [-> | ->]; rewrite ?orb_true_r.
Qed.

Lemma invalid_arguments_rejected_witness :
  let request := Demo.call {["format" := JSString "bmp"]} in
  name request = "generate_image" ∧
  isValidGenerateImageArgs (arguments request) = false ∧
  handler Demo.env request Demo.empty_world
  = (inl (mkMcpError InvalidParams "Invalid generate_image arguments"),
     Demo.empty_world).
Proof.
  split; [reflexivity|]. split; [vm_compute; reflexivity|].
  apply invalid_arguments_rejected_without_effects;
    [reflexivity | right; vm_compute; reflexivity].
Defined.

(** C3, counterexample: a request with width 0 is valid, and the API is
    sent width 1024, which is not max(256, 0) = 256. *)
Lemma zero_width_is_replaced_not_clamped :
  let args := JSObject (<["height" := JSNumber (Num.of_Z 600)]>
                (<["width" := JSNumber (Num.of_Z 0)]>
                   {["prompt" := JSString "a cat"]})) in
  isValidGenerateImageArgs args = true ∧
  get_prop args "width" = JSNumber (Num.of_Z 0) ∧
  get_prop args "height" = JSNumber (Num.of_Z 600) ∧
  req_width (api_request args) = Num.of_Z 1024 ∧
  Num.max (Num.of_Z 256) (Num.of_Z 0) = Num.of_Z 256 ∧
  req_width (api_request args) ≠ Num.max (Num.of_Z 256) (Num.of_Z 0).
Proof. vm_compute. repeat split; discriminate. Qed.

(** C3, amended: for a valid request the API call carries, per dimension,
    max(256, x) when the request gives a number x other than 0, -0 and
    NaN, and max(256, default) = default when the dimension is absent or
    is 0, -0 or NaN (default 1024 for width, 768 for height). *)
Theorem api_receives_clamped_dimensions env request w :
  name request = "generate_image" →
  isValidGenerateImageArgs (arguments request) = true →
  let args := arguments request in
  req_width (api_request args) = clamped (get_prop args "width") 1024 ∧
  req_height (api_request args) = clamped (get_prop args "height") 768 ∧
  ∃ evs, trace (handler env request w).2
         = trace w ++ ApiCall (api_request args) :: evs.
Proof.
  intros Hname Hvalid args. split_and!.
  - simpl. unfold apiWidth, requestWidth, number_or, clamped.
    destruct (get_prop args "width") as [| | | x | | |]; try reflexivity.
    by destruct (Num.truthy x).
  - simpl. unfold apiHeight, requestHeight, number_or, clamped.
    destruct (get_prop args "height") as [| | | x | | |]; try reflexivity.
    by destruct (Num.truthy x).
  - by apply handler_starts_with_api_call.
Qed.

Lemma api_receives_clamped_dimensions_witness :
  let request := Demo.call (<["width" := JSNumber (Num.of_Z 100)]>
                              {["prompt" := JSString "a cat"]}) in
  let args := arguments request in
  name request = "generate_image" ∧
  isValidGenerateImageArgs args = true ∧
  req_width (api_request args) = clamped (get_prop args "width") 1024 ∧
  req_height (api_request args) = clamped (get_prop args "height") 768 ∧
  ∃ evs, trace (handler Demo.env request Demo.empty_world).2
         = trace Demo.empty_world ++ ApiCall (api_request args) :: evs.
Proof.
  split; [reflexivity|]. split; [vm_compute; reflexivity|].
  apply api_receives_clamped_dimensions; [reflexivity | vm_compute; reflexivity].
Defined.

(** C8, counterexample: a request whose prompt is the empty string passes
    the guard, is not answered with an invalid-parameters error, and the
    API is called with it. *)
Lemma empty_prompt_reaches_the_api :
  let request := Demo.call {["prompt" := JSString ""]} in
  isValidGenerateImageArgs (arguments request) = true ∧
  outcome_code (handler Demo.env request Demo.empty_world).1 = None ∧
  head (trace (handler Demo.env request Demo.empty_world).2)
  = Some (ApiCall (api_request (arguments request))) ∧
  req_prompt (api_request (arguments request)) = "".
Proof. vm_compute. repeat split. Qed.

(** C8, amended: a call whose prompt is the empty string and whose other
    fields are well typed passes validation; it is never rejected with an
    invalid-parameters error, and the generation API is called with the
    empty prompt. *)
Theorem empty_prompt_is_accepted env w (o : JSObj) :
  well_formed_args (JSObject o) →
  o !! "prompt" = Some (JSString "") →
  let request := mkRequest "generate_image" (JSObject o) in
  isValidGenerateImageArgs (JSObject o) = true ∧
  outcome_code (handler env request w).1 ≠ Some InvalidParams ∧
  req_prompt (api_request (JSObject o)) = "" ∧
  ∃ evs, trace (handler env request w).2
         = trace w ++ ApiCall (api_request (JSObject o)) :: evs.
Proof.
  intros Hwf Hprompt request.
  apply valid_iff_well_formed in Hwf.
  split_and!; [done | | |].
  - by destruct (handler_valid_code env request w eq_refl Hwf) as [-> | ->].
  - simpl. unfold prompt_of, get_prop. by rewrite Hprompt.
  - by apply (handler_starts_with_api_call env request w).
Qed.

Lemma empty_prompt_is_accepted_witness :
  let o : JSObj := <["steps" := JSNumber (Num.of_Z 4)]>
                     {["prompt" := JSString ""]} in
  let request := mkRequest "generate_image" (JSObject o) in
  o !! "prompt" = Some (JSString "") ∧
  isValidGenerateImageArgs (JSObject o) = true ∧
  outcome_code (handler Demo.env request Demo.empty_world).1
  ≠ Some InvalidParams ∧
  req_prompt (api_request (JSObject o)) = "" ∧
  ∃ evs, trace (handler Demo.env request Demo.empty_world).2
         = trace Demo.empty_world ++ ApiCall (api_request (JSObject o)) :: evs.
Proof.
  split; [vm_compute; reflexivity|].
  apply empty_prompt_is_accepted; [|vm_compute; reflexivity].
  apply valid_iff_well_formed. vm_compute. reflexivity.
Defined.

(** ** The resize step *)

Lemma holds_input env buffer img w :
  holds env buffer img → sharp_input env buffer w = (inr img, w).
Proof.
  destruct buffer as [s|i]; simpl; [intros ->|intros ->]; reflexivity.
Qed.

(** C2: when the requested width and the requested height are both below
    256, the resize is called with targetHeight = requestedHeight and
    targetWidth = round(requestedHeight * aspectRatio), aspectRatio being
    the decoded image's width over its height; the height the width branch
    had computed is gone. *)
Theorem both_below_minimum_height_branch_wins env args buffer img w :
  Num.lt (requestWidth args) (Num.of_Z 256) = true →
  Num.lt (requestHeight args) (Num.of_Z 256) = true →
  holds env buffer img →
  let originalWidth := or_zero (Num.of_N (img_width img)) in
  let originalHeight := or_zero (Num.of_N (img_height img)) in
  let aspectRatio := Num.div originalWidth originalHeight in
  let targetWidth := Num.round (Num.mul (requestHeight args) aspectRatio) in
  let targetHeight := requestHeight args in
  target_dimensions (requestWidth args) (requestHeight args)
                    originalWidth originalHeight
  = (targetWidth, targetHeight) ∧
  resize_if_needed env args buffer w
  = sharp_resize env buffer targetWidth targetHeight w.
Proof.
  intros Hw Hh Hbuf; intros.
  assert (Htarget : target_dimensions (requestWidth args) (requestHeight args)
                      originalWidth originalHeight
                    = (targetWidth, targetHeight)).
  { unfold target_dimensions. rewrite Hw, Hh. reflexivity. }
  split; [done|].
  unfold resize_if_needed. rewrite Hw. simpl.
  unfold sharp_metadata.
  rewrite (bind_ok _ _ w img w) by by apply holds_input.
  fold originalWidth originalHeight. by rewrite Htarget.
Qed.

Lemma both_below_minimum_height_branch_wins_witness :
  let args := JSObject (<["width" := JSNumber (Num.of_Z 100)]>
                (<["height" := JSNumber (Num.of_Z 50)]>
                   {["prompt" := JSString "a cat"]})) in
  let buffer := Base64Bytes "LANDSCAPE" in
  Num.lt (requestWidth args) (Num.of_Z 256) = true ∧
  Num.lt (requestHeight args) (Num.of_Z 256) = true ∧
  holds Demo.env buffer Demo.landscape ∧
  target_dimensions (requestWidth args) (requestHeight args)
    (Num.of_Z 1024) (Num.of_Z 768)
  = (Num.of_Z 67, Num.of_Z 50) ∧
  resize_if_needed Demo.env args buffer Demo.empty_world
  = sharp_resize Demo.env buffer (Num.of_Z 67) (Num.of_Z 50) Demo.empty_world.
Proof.
  split; [vm_compute; reflexivity|].
  split; [vm_compute; reflexivity|].
  split; [vm_compute; reflexivity|].
  assert (Hthm := both_below_minimum_height_branch_wins Demo.env
           (JSObject (<["width" := JSNumber (Num.of_Z 100)]>
              (<["height" := JSNumber (Num.of_Z 50)]>
                 {["prompt" := JSString "a cat"]})))
           (Base64Bytes "LANDSCAPE") Demo.landscape Demo.empty_world).
  vm_compute in Hthm |- *. apply Hthm; reflexivity.
Defined.





(** ** One entry per image *)

Lemma valid_format args :
  isValidGenerateImageArgs args = true →
  format_of args = "png" ∨ format_of args = "jpg" ∨ format_of args = "svg".
Proof.
  intros (o & -> & _ & _ & _ & _ & _ & _ & _ & Hformat)
    %valid_iff_well_formed.
  unfold format_of, get_prop. unfold if_present in Hformat.
  destruct (o !! "format") as [v|]; simpl; [|by left].
  destruct v; simpl; try by left.
  destruct Hformat as [[= ->] | [[= ->] | [= ->]]]; simpl; auto.
Qed.

Lemma filepath_of_entry d filepath filename original final :
  filepath_of (entry d filepath filename original final) = JSString filepath.
Proof.
  unfold filepath_of, entry, get_prop.
  rewrite lookup_insert_ne by done. rewrite lookup_insert_ne by done.
  by rewrite lookup_insert_eq.
Qed.

Lemma save_and_report_entry env args dir d index buffer w r w' :
  save_and_report env args dir d index buffer w = (inr r, w') →
  is_entry_of args dir index d r.
Proof.
  unfold save_and_report, bind, now.
  destruct (persist _ _ _ _ _) as [[e|[]] w1]; [done|].
  destruct (sharp_file_metadata _ w1) as [[e|m] w2]; [done|].
  unfold ret. intros [= <- <-].
  by exists (clock env (ticks w)),
    (size_object (Num.of_N (img_width m)) (Num.of_N (img_height m))).
Qed.

Lemma process_image_entry env args dir d index w r w' :
  process_image env args dir d index w = (inr r, w') →
  is_entry_of args dir index d r.
Proof.
  unfold process_image, bind at 1.
  destruct (Buffer_from _ w) as [[e|buffer] w1]; [done|].
  unfold bind.
  destruct (resize_if_needed _ _ _ w1) as [[e|buffer'] w2]; [done|].
  apply save_and_report_entry.
Qed.

Lemma process_all_entries env args dir data :
  ∀ index w results w',
    process_all env args dir data index w = (inr results, w') →
    length results = length data ∧
    ∀ i d r, data !! i = Some d → results !! i = Some r →
             is_entry_of args dir (index + i) d r.
Proof.
  induction data as [|d data IH]; intros index w results w'; simpl.
  - intros [= <- <-]. split; [done|]. by intros [|i] ???.
  - unfold bind at 1.
    destruct (process_image _ _ _ _ _ w) as [[e|r] w1] eqn:Hone; [done|].
    unfold bind.
    destruct (process_all _ _ _ _ _ w1) as [[e|rs] w2] eqn:Hrest; [done|].
    intros [= <- <-]. apply IH in Hrest as [Hlen Hrest].
    apply process_image_entry in Hone.
    split; [simpl; by rewrite Hlen|].
    intros [|i] d' r' Hd Hr; simplify_eq/=.
    + by rewrite Nat.add_0_r.
    + rewrite Nat.add_succ_r. by apply Hrest.
Qed.

Lemma entries_have_distinct_paths args dir (data results : list JSObj) index :
  isValidGenerateImageArgs args = true →
  length results = length data →
  (∀ i d r, data !! i = Some d → results !! i = Some r →
            is_entry_of args dir (index + i) d r) →
  NoDup (filepath_of <$> results).
Proof.
  intros Hvalid Hlen Hentries. apply NoDup_alt. intros i j fp.
  rewrite !list_lookup_fmap.
  destruct (results !! i) as [ri|] eqn:Hi; [|done].
  destruct (results !! j) as [rj|] eqn:Hj; [|done].
  simpl. intros [= Hfi] [= Hfj].
  destruct (lookup_lt_is_Some_2 data i) as [di Hdi].
  { rewrite <-Hlen. eapply lookup_lt_Some; eauto. }
  destruct (lookup_lt_is_Some_2 data j) as [dj Hdj].
  { rewrite <-Hlen. eapply lookup_lt_Some; eauto. }
  destruct (Hentries i di ri Hdi Hi) as (tsi & fi & ->).
  destruct (Hentries j dj rj Hdj Hj) as (tsj & fj & ->).
  rewrite filepath_of_entry in Hfi, Hfj. subst fp.
  injection Hfj as Heq.
  apply join_inj, filename_of_inj in Heq;
    [lia | by apply filename_of_simple, valid_format..].
Qed.

(** C6: a successful call returns one entry per image the API returned,
    the entry at position i being the API's i-th result extended with its
    filepath, filename and dimensions, and no two entries of the call
    share a filepath. *)
Theorem successful_call_has_one_entry_per_image env request w results w' :
  handler env request w = (inr results, w') →
  ∃ data,
    images_create env (api_request (arguments request)) = inr data ∧
    length results = length data ∧
    (∀ i d r, data !! i = Some d → results !! i = Some r →
       is_entry_of (arguments request)
                   (outputDir env (arguments request)) i d r) ∧
    NoDup (filepath_of <$> results).
Proof.
  unfold handler.
  destruct (negb (String.eqb _ _)); [done|].
  destruct (isValidGenerateImageArgs (arguments request)) eqn:Hvalid;
    [|by rewrite orb_true_r].
  rewrite (valid_is_truthy _ Hvalid). simpl.
  destruct (generate _ _ w) as [[e|rs] w1] eqn:Hrun; [done|].
  intros [= <- <-]. revert Hrun.
  unfold generate, bind at 1. rewrite together_images_create_run.
  destruct (images_create _ _) as [e|data]; [done|].
  unfold store_images, bind at 1, fs_existsSync.
  unfold bind at 1.
  match goal with |- context [(if ?b then _ else _) ?w] =>
    destruct ((if b then fs_mkdirSync _ else ret ()) w) as [[e|[]] w2]
  end; [done|].
  intros [Hlen Hentries]%process_all_entries.
  exists data. split_and!; [done..|].
  by eapply (entries_have_distinct_paths _ _ data _ 0%nat).
Qed.

Lemma successful_call_has_one_entry_per_image_witness :
  let request := Demo.call {["prompt" := JSString "a cat"]} in
  ∃ results w',
    handler Demo.env request Demo.empty_world = (inr results, w') ∧
    ∃ data,
      images_create Demo.env (api_request (arguments request)) = inr data ∧
      length results = length data ∧
      (∀ i d r, data !! i = Some d → results !! i = Some r →
         is_entry_of (arguments request)
                     (outputDir Demo.env (arguments request)) i d r) ∧
      NoDup (filepath_of <$> results).
Proof.
  intros request.
  destruct (handler Demo.env request Demo.empty_world) as [[e|results] w']
    eqn:Hrun.
  - vm_compute in Hrun. discriminate.
  - exists results, w'. split; [reflexivity|].
    by apply (successful_call_has_one_entry_per_image _ _ Demo.empty_world _ w').
Defined.

(** ** Failures *)

(** A failure of the API call is a failure of the try block: nothing but
    the call itself has happened. *)
Lemma api_failure_propagates env args w error :
  images_create env (api_request args) = inl error →
  generate env args w
  = (inl error,
     mkWorld (files w) (dirs w) (ticks w)
             (trace w ++ [ApiCall (api_request args)])).
Proof.
  intros Hfail. unfold generate, bind.
  by rewrite together_images_create_run, Hfail.
Qed.

(** C10: when any step of the try block throws, the handler answers with
    one internal error whose text is "Image generation failed: " followed
    by the error's message (or by "Unknown error" when it has none); there
    is no result list; the catch clause only logs, so the disk is as the
    failing run left it and every file written before the failure is
    still there. *)
Theorem failure_after_validation_is_one_internal_error
    env request w error w1 :
  name request = "generate_image" →
  isValidGenerateImageArgs (arguments request) = true →
  generate env (arguments request) w = (inl error, w1) →
  handler env request w
  = (inl (mkMcpError InternalError
            ("Image generation failed: " +:+ message_or_unknown error)),
     logged error w1) ∧
  (exn_message error ≠ "" → message_or_unknown error = exn_message error) ∧
  files (logged error w1) = files w1 ∧
  dirs (logged error w1) = dirs w1 ∧
  ∃ evs, trace w1 = trace w ++ evs ∧
    ∀ p c img, WriteFile p c img ∈ evs → is_Some (files (logged error w1) !! p).
Proof.
  intros Hname Hvalid Hrun. rewrite handler_valid, Hrun by done.
  split_and!; [done| |done|done|].
  - unfold message_or_unknown. by destruct (exn_message error).
  - apply keeps_generate in Hrun as (evs & Ht & _ & Hw). eauto.
Qed.

Lemma failure_after_validation_witness :
  let request := Demo.call {["prompt" := JSString "a cat"]} in
  let env := Demo.env_second_unreadable in
  ∃ error w1,
    generate env (arguments request) Demo.empty_world = (inl error, w1) ∧
    handler env request Demo.empty_world
    = (inl (mkMcpError InternalError
              ("Image generation failed: " +:+ message_or_unknown error)),
       logged error w1) ∧
    is_Some (files (logged error w1)
               !! "/home/user/output/image_1700000000000_0.png").
Proof.
  intros request env.
  destruct (generate env (arguments request) Demo.empty_world)
    as [[error|results] w1] eqn:Hrun.
  - exists error, w1. split; [reflexivity|].
    destruct (failure_after_validation_is_one_internal_error
                env request Demo.empty_world error w1)
      as (Hhandler & _ & _ & _ & evs & Ht & Hw);
      [reflexivity | vm_compute; reflexivity | exact Hrun |].
    split; [exact Hhandler|].
    apply (Hw _ PNG Demo.square).
    assert (Hev : WriteFile "/home/user/output/image_1700000000000_0.png"
                    PNG Demo.square ∈ trace w1).
    { vm_compute in Hrun. injection Hrun as _ <-. simpl.
      rewrite !elem_of_cons. auto. }
    rewrite Ht in Hev. simpl in Hev. exact Hev.
  - vm_compute in Hrun. discriminate.
Defined.


(** ** The svg path *)

Global Instance quiet_preorder : PreOrder quiet.
Proof.
  split.
  - intros w. split_and!; [done | done | reflexivity].
  - intros w1 w2 w3 (F1 & T1 & E1) (F2 & T2 & E2).
    split_and!; [congruence | congruence | by etrans].
Qed.

Lemma quiet_intro w w' evs :
  files w' = files w → ticks w' = ticks w →
  trace w' = trace w ++ evs → Forall no_output evs → quiet w w'.
Proof. intros ????. split_and!; [done..|]. by exists evs. Qed.

Lemma quiet_emit ev : no_output ev → preserves quiet (emit ev).
Proof.
  intros Hev w r w' [= <- <-]. apply (quiet_intro _ _ [ev]); [done..|].
  by apply Forall_singleton.
Qed.

Lemma quiet_create env req : preserves quiet (together_images_create env req).
Proof.
  apply preserves_bind; [apply _ | by apply quiet_emit |].
  intros _. apply preserves_unchanged; [apply _|].
  intros w. by destruct (images_create env req).
Qed.

Lemma quiet_mkdir p : preserves quiet (fs_mkdirSync p).
Proof.
  intros w r w'. unfold fs_mkdirSync.
  destruct (existsb _ _); intros [= <- <-]; [reflexivity|].
  apply (quiet_intro _ _ [Mkdir p]); [done..|]. by apply Forall_singleton.
Qed.

Lemma quiet_resize_if_needed env args buffer :
  preserves quiet (resize_if_needed env args buffer).
Proof.
  unfold resize_if_needed.
  apply preserves_if; [|apply preserves_ret; apply _].
  apply preserves_bind; [apply _| |].
  - apply preserves_unchanged; [apply _ | apply sharp_input_unchanged].
  - intros m. destruct (target_dimensions _ _ _ _) as [tw th].
    apply preserves_bind; [apply _ | by apply quiet_emit |].
    intros _.
    destruct (positive_integer tw), (positive_integer th);
      try apply preserves_throw; try apply _.
    apply preserves_bind; [apply _ | | intros; apply preserves_ret; apply _].
    apply preserves_unchanged; [apply _ | apply sharp_input_unchanged].
Qed.


Lemma prefix_cons a s1 b s2 :
  String.prefix (String a s1) (String b s2)
  = if ascii_dec a b then String.prefix s1 s2 else false.
Proof. reflexivity. Qed.

Lemma replace_unfold pat rep c s :
  Str.replace pat rep (String c s)
  = if String.prefix pat (String c s)
    then rep +:+ String.substring (String.length pat)
           (String.length (String c s) - String.length pat) (String c s)
    else String c (Str.replace pat rep s).
Proof. reflexivity. Qed.


Lemma filename_svg ts i :
  filename_of ts i "svg"
  = ("image_" +:+ Str.of_Z ts +:+ "_" +:+ Str.of_nat i) +:+ ".svg".
Proof. unfold filename_of. by rewrite !string_app_assoc. Qed.












(** When the svg branch of the format switch returns, a PNG holding the
    buffer's image is on disk at the path with the first [.svg] replaced,
    and the warning is the last thing logged. *)
Lemma persist_svg_returns env filepath buffer w w' :
  persist env "svg" filepath buffer w = (inr tt, w') →
  ∃ img, holds env buffer img ∧
    files w' !! Str.replace ".svg" ".png" filepath = Some (ImageFile PNG img) ∧
    trace w' = trace w
               ++ [WriteFile (Str.replace ".svg" ".png" filepath) PNG img;
                   Warn "SVG output is not fully supported yet"].
Proof.
  unfold persist.
  change (String.eqb "svg" "png") with false.
  change (String.eqb "svg" "jpg") with false.
  change (String.eqb "svg" "svg") with true. cbv iota.
  unfold sharp_toFile. rewrite bind_assoc. unfold bind at 1.
  destruct buffer as [s|img]; simpl.
  - destruct (decode env s) as [img|] eqn:Hdecode; simpl; [|done].
    unfold bind at 1. simpl. destruct (_ && _); [|done].
    unfold bind. simpl. intros [= <-]. simpl. exists img.
    split_and!; [done | by rewrite lookup_insert_eq | by rewrite <-app_assoc].
  - unfold bind at 1. simpl. destruct (_ && _); [|done].
    unfold bind. simpl. intros [= <-]. simpl. exists img.
    split_and!; [done | by rewrite lookup_insert_eq | by rewrite <-app_assoc].
Qed.

(** C4 at a failing input: the request asks for svg into the directory
    /srv/art.svg.  The path reported is /srv/art.svg/image_<t>_0.svg; the
    replacement hits the directory name, so the PNG is sent to
    /srv/art.png/image_<t>_0.svg.  On an empty disk the write fails, nothing
    is written and no warning is logged; where /srv/art.png exists the PNG
    lands there under an .svg name, and no file is at
    /srv/art.svg/image_<t>_0.png. *)
Theorem svg_swap_hits_directory_name :
  let request := Demo.svg_into_svg_directory in
  let run := handler Demo.env request Demo.empty_world in
  let run' := handler Demo.env request Demo.world_with_png_directory in
  isValidGenerateImageArgs (arguments request) = true ∧
  Path.join (outputDir Demo.env (arguments request))
            (filename_of 1700000000000 0 "svg")
  = "/srv/art.svg/image_1700000000000_0.svg" ∧
  Str.replace ".svg" ".png" "/srv/art.svg/image_1700000000000_0.svg"
  = "/srv/art.png/image_1700000000000_0.svg" ∧
  run.1 = inl (mkMcpError InternalError
    "Image generation failed: /srv/art.png/image_1700000000000_0.svg: unable to open for write") ∧
  files run.2 = ∅ ∧
  trace run.2
  = [ApiCall (api_request (arguments request)); Mkdir "/srv/art.svg";
     LogError "Together AI API error: /srv/art.png/image_1700000000000_0.svg: unable to open for write"] ∧
  files run'.2 !! "/srv/art.png/image_1700000000000_0.svg"
  = Some (ImageFile PNG Demo.square) ∧
  files run'.2 !! "/srv/art.svg/image_1700000000000_0.png" = None.
Proof. vm_compute. repeat split. Qed.

(** ** Where the extension swap does hit the extension *)

Lemma svg_free_tail c s : svg_free (String c s) → svg_free s.
Proof. intros Hfree a b ->. by apply (Hfree (String c a) b). Qed.

Lemma prefix_svg_before_slash pre t :
  svg_free pre → String.prefix ".svg" (pre +:+ String "/" t) = false.
Proof.
  intros Hfree.
  destruct pre as [|c1 [|c2 [|c3 [|c4 rest]]]];
    rewrite ?app_cons, ?app_empty_l, !prefix_cons;
    repeat (destruct (ascii_dec _ _) as [?|?]; try done).
  subst. by destruct (Hfree "" rest).
Qed.

Lemma replace_svg_plain s :
  all_chars (λ c, c ≠ "."%char) s →
  Str.replace ".svg" ".png" (s +:+ ".svg") = s +:+ ".png".
Proof.
  induction s as [|c s IH]; [done|]. intros [Hc Hs].
  rewrite !app_cons, replace_unfold, prefix_cons.
  destruct (ascii_dec "." c) as [<-|_]; [done|]. by rewrite IH.
Qed.

Lemma replace_svg_extension pre name :
  svg_free pre → all_chars (λ c, c ≠ "."%char) name →
  Str.replace ".svg" ".png" (pre +:+ "/" +:+ name +:+ ".svg")
  = pre +:+ "/" +:+ name +:+ ".png".
Proof.
  intros Hfree Hname. induction pre as [|c pre IH].
  - rewrite !app_empty_l.
    rewrite <-!(string_app_assoc "/" name). apply replace_svg_plain.
    rewrite app_cons, app_empty_l. simpl. by split.
  - rewrite !(app_cons c pre), replace_unfold.
    assert (String.prefix ".svg" (String c (pre +:+ "/" +:+ name +:+ ".svg"))
            = false) as ->
      by exact (prefix_svg_before_slash (String c pre) (name +:+ ".svg") Hfree).
    rewrite IH by by eapply svg_free_tail. done.
Qed.

Lemma filename_png ts i :
  filename_of ts i "png"
  = ("image_" +:+ Str.of_Z ts +:+ "_" +:+ Str.of_nat i) +:+ ".png".
Proof. unfold filename_of. by rewrite !string_app_assoc. Qed.

Lemma filename_stem_has_no_dot ts i :
  all_chars (λ c, c ≠ "."%char)
            ("image_" +:+ Str.of_Z ts +:+ "_" +:+ Str.of_nat i).
Proof.
  rewrite !app_cons, !app_empty_l. simpl. repeat (split; [discriminate|]).
  apply all_chars_app. split.
  { eapply all_chars_impl, pretty_Z_plain. by intros c (_ & ? & _). }
  simpl. split; [discriminate|].
  eapply all_chars_impl, pretty_nat_plain. by intros c (_ & ? & _).
Qed.

(** With no [.svg] in the normalised output directory, the replacement
    turns the reported svg path into the same path with extension png. *)
Lemma svg_swap_hits_extension dir ts i :
  svg_free (Path.render_segments (Path.segments dir)) →
  Str.replace ".svg" ".png" (Path.join dir (filename_of ts i "svg"))
  = Path.join dir (filename_of ts i "png").
Proof.
  intros Hfree.
  rewrite !join_simple by (apply filename_of_simple; auto).
  rewrite filename_svg, filename_png.
  apply replace_svg_extension; [done | apply filename_stem_has_no_dot].
Qed.

(** ** Clamping *)

Lemma of_Z_256 : Num.of_Z 256 = S754_finite false 4503599627370496 (-44).
Proof. vm_compute. reflexivity. Qed.

Lemma compare_positive_antisym m e x c :
  SFcompare x (S754_finite false m e) = Some c →
  SFcompare (S754_finite false m e) x = Some (CompOpp c).
Proof.
  destruct x as [s|s| |s m' e']; simpl;
    try (intros [= <-]; by destruct s); try discriminate.
  destruct s; [by intros [= <-]|].
  rewrite (Z.compare_antisym e' e).
  destruct (e' ?= e)%Z; simpl; try by intros [= <-].
  intros [= <-]. by rewrite (Pos.compare_cont_antisym m' m Eq).
Qed.

Lemma compare_positive_eq m e x :
  SFcompare x (S754_finite false m e) = Some Eq → x = S754_finite false m e.
Proof.
  destruct x as [s|s| |s m' e']; simpl; try (by destruct s); try discriminate.
  destruct s; [discriminate|].
  destruct (e' ?= e)%Z eqn:He; try discriminate.
  apply Z.compare_eq in He as ->. intros [= Hm].
  apply Pos.compare_eq in Hm as ->. reflexivity.
Qed.

Lemma compare_256_antisym x c :
  SFcompare x (Num.of_Z 256) = Some c →
  SFcompare (Num.of_Z 256) x = Some (CompOpp c).
Proof. rewrite of_Z_256. apply compare_positive_antisym. Qed.

Lemma compare_256_eq x :
  SFcompare x (Num.of_Z 256) = Some Eq → x = Num.of_Z 256.
Proof. rewrite of_Z_256. apply compare_positive_eq. Qed.

Lemma compare_256_defined x :
  Num.is_nan x = false → ∃ c, SFcompare x (Num.of_Z 256) = Some c.
Proof.
  rewrite of_Z_256. generalize 4503599627370496%positive. intros m.
  destruct x as [s|s| |s m' e']; simpl; eauto; discriminate.
Qed.

(** [Math.max(256, x)] for a number that is not NaN. *)
Lemma max_256 x :
  Num.is_nan x = false →
  Num.max (Num.of_Z 256) x
  = if Num.lt x (Num.of_Z 256) then Num.of_Z 256 else x.
Proof.
  intros [c Hc]%compare_256_defined.
  unfold Num.max, Num.lt, SFltb.
  rewrite Hc, (compare_256_antisym _ _ Hc).
  destruct c; cbn [CompOpp]; try reflexivity.
  apply compare_256_eq in Hc as ->. by rewrite of_Z_256.
Qed.

Lemma leb_256_max x :
  Num.is_nan x = false → SFleb (Num.of_Z 256) (Num.max (Num.of_Z 256) x) = true.
Proof.
  intros Hx. rewrite max_256 by done.
  destruct (compare_256_defined x Hx) as [c Hc].
  unfold Num.lt, SFltb, SFleb. rewrite Hc.
  destruct c; try reflexivity; by rewrite (compare_256_antisym _ _ Hc).
Qed.

Lemma number_or_not_nan v d :
  Num.is_nan d = false → Num.is_nan (number_or v d) = false.
Proof.
  intros Hd. destruct v as [| | |x| | |]; simpl; try done.
  destruct x as [s|s| |s m e]; simpl; done.
Qed.

(** X1: whatever the arguments hold, the width and the height sent to the
    API are numbers (never NaN) and [256 <= dimension] holds for both. *)
Theorem api_dimensions_at_least_256 args :
  SFleb (Num.of_Z 256) (req_width (api_request args)) = true ∧
  SFleb (Num.of_Z 256) (req_height (api_request args)) = true.
Proof.
  change (req_width (api_request args)) with (apiWidth args).
  change (req_height (api_request args)) with (apiHeight args).
  split; apply leb_256_max, number_or_not_nan; vm_compute; reflexivity.
Qed.

(** X2: clamping changes a dimension exactly when that dimension asks for
    a resize: the API dimension is 256 when the requested one is below
    256, and is the requested one otherwise. *)
Theorem clamp_moves_only_dimensions_below_256 args :
  apiWidth args
  = (if Num.lt (requestWidth args) (Num.of_Z 256)
     then Num.of_Z 256 else requestWidth args) ∧
  apiHeight args
  = (if Num.lt (requestHeight args) (Num.of_Z 256)
     then Num.of_Z 256 else requestHeight args).
Proof.
  split; apply max_256, number_or_not_nan; vm_compute; reflexivity.
Qed.

(** ** Relations kept along the whole pipeline *)

Section Pipeline.

Context (R : relation World) `{!PreOrder R}.
Context (env : Env) (args : JSValue) (dir : string) (k : nat).

Hypothesis R_now : preserves R (now env).
Hypothesis R_resize : ∀ tw th, preserves R (emit (Resize tw th)).
Hypothesis R_persist : ∀ timestamp index buffer, (k ≤ index)%nat →
  preserves R
    (persist env (format_of args)
       (Path.join dir (filename_of timestamp index (format_of args))) buffer).

Lemma pipeline_input {A} (buffer : Buffer) (f : Image → M A) :
  (∀ img, preserves R (f img)) →
  preserves R (bind (sharp_input env buffer) f).
Proof.
  intros Hf. apply preserves_bind; [apply _| |done].
  apply preserves_unchanged; [apply _ | apply sharp_input_unchanged].
Qed.

Lemma pipeline_resize_if_needed buffer :
  preserves R (resize_if_needed env args buffer).
Proof.
  unfold resize_if_needed.
  apply preserves_if; [|apply preserves_ret; apply _].
  apply pipeline_input. intros m.
  destruct (target_dimensions _ _ _ _) as [tw th].
  apply preserves_bind; [apply _ | apply R_resize |]. intros _.
  destruct (positive_integer tw), (positive_integer th);
    try apply preserves_throw; try apply _.
  apply pipeline_input. intros img. apply preserves_ret; apply _.
Qed.

Lemma pipeline_save_and_report d index buffer :
  (k ≤ index)%nat →
  preserves R (save_and_report env args dir d index buffer).
Proof.
  intros Hk. unfold save_and_report.
  apply preserves_bind; [apply _ | apply R_now | intros timestamp].
  apply preserves_bind; [apply _ | by apply R_persist | intros _].
  apply preserves_bind; [apply _ | | intros; apply preserves_ret; apply _].
  apply preserves_unchanged; [apply _ | apply sharp_file_metadata_unchanged].
Qed.

Lemma pipeline_process_image d index :
  (k ≤ index)%nat → preserves R (process_image env args dir d index).
Proof.
  intros Hk. unfold process_image.
  apply preserves_bind; [apply _ | | intros buffer].
  { apply preserves_unchanged; [apply _ | apply Buffer_from_unchanged]. }
  apply preserves_bind;
    [apply _ | apply pipeline_resize_if_needed | intros buffer'].
  by apply pipeline_save_and_report.
Qed.

Lemma pipeline_process_all data :
  ∀ index, (k ≤ index)%nat →
           preserves R (process_all env args dir data index).
Proof.
  induction data as [|d data IH]; intros index Hk; simpl.
  - apply preserves_ret; apply _.
  - apply preserves_bind;
      [apply _ | by apply pipeline_process_image | intros r].
    apply preserves_bind;
      [apply _ | apply IH; lia | intros; apply preserves_ret; apply _].
Qed.

End Pipeline.

Section WholeCall.

Context (R : relation World) `{!PreOrder R}.
Context (env : Env) (args : JSValue).

Hypothesis R_api : preserves R (emit (ApiCall (api_request args))).
Hypothesis R_mkdir : preserves R (fs_mkdirSync (outputDir env args)).
Hypothesis R_now : preserves R (now env).
Hypothesis R_resize : ∀ tw th, preserves R (emit (Resize tw th)).
Hypothesis R_persist : ∀ timestamp index buffer,
  preserves R
    (persist env (format_of args)
       (Path.join (outputDir env args)
          (filename_of timestamp index (format_of args))) buffer).

Lemma pipeline_store_images data :
  preserves R (store_images env args data).
Proof.
  unfold store_images.
  apply preserves_bind; [apply _ | | intros present].
  { apply preserves_unchanged; [apply _ | apply fs_existsSync_unchanged]. }
  apply preserves_bind; [apply _ | | intros _].
  { apply preserves_if; [apply R_mkdir | apply preserves_ret; apply _]. }
  apply (pipeline_process_all R env args (outputDir env args) 0%nat);
    [done | done | by intros | lia].
Qed.

Lemma pipeline_generate : preserves R (generate env args).
Proof.
  unfold generate.
  apply preserves_bind; [apply _ | | intros data; apply pipeline_store_images].
  unfold together_images_create.
  apply preserves_bind; [apply _ | apply R_api | intros _].
  apply preserves_unchanged; [apply _|].
  intros w. by destruct (images_create env (api_request args)).
Qed.

End WholeCall.

(** *** Events *)

Lemma emits_emit P ev : P ev → preserves (emits P) (emit ev).
Proof.
  intros HP w r w' [= <- <-]. exists [ev]. split; [done|].
  by apply Forall_singleton.
Qed.

Lemma emits_now P env : preserves (emits P) (now env).
Proof. intros w r w' [= <- <-]. exists []. simpl. by rewrite app_nil_r. Qed.

Lemma emits_mkdir P p : P (Mkdir p) → preserves (emits P) (fs_mkdirSync p).
Proof.
  intros HP w r w'. unfold fs_mkdirSync.
  destruct (existsb _ _); intros [= <- <-]; [reflexivity|].
  exists [Mkdir p]. split; [done|]. by apply Forall_singleton.
Qed.

Lemma emits_toFile P env buffer c p :
  (∀ img, P (WriteFile p c img)) →
  preserves (emits P) (sharp_toFile env buffer c p).
Proof.
  intros HP. apply pipeline_input; [apply _|]. intros img w r w'.
  destruct (_ && _); intros [= <- <-]; [|reflexivity].
  exists [WriteFile p c img]. split; [done|]. by apply Forall_singleton.
Qed.

Lemma persist_cases env format filepath buffer :
  persist env format filepath buffer
  = (if String.eqb format "svg"
     then bind (sharp_toFile env buffer PNG
                  (Str.replace ".svg" ".png" filepath))
               (λ _, emit (Warn "SVG output is not fully supported yet"))
     else if String.eqb format "png" || String.eqb format "jpg"
     then sharp_toFile env buffer (codec_of format)
            (written_path format filepath)
     else ret tt).
Proof.
  unfold persist, codec_of, written_path.
  destruct (String.eqb_spec format "png") as [->|?]; [reflexivity|].
  destruct (String.eqb_spec format "jpg") as [->|?]; [reflexivity|].
  by destruct (String.eqb format "svg").
Qed.

Lemma emits_persist P env format filepath buffer :
  (∀ img, P (WriteFile (written_path format filepath) (codec_of format) img)) →
  (format = "svg" → ∀ msg, P (Warn msg)) →
  preserves (emits P) (persist env format filepath buffer).
Proof.
  intros HW HWarn. rewrite persist_cases.
  destruct (String.eqb_spec format "svg") as [->|Hne].
  - apply preserves_bind; [apply _ | | intros _; by apply emits_emit, HWarn].
    apply emits_toFile. apply HW.
  - apply preserves_if; [|apply preserves_ret; apply _].
    by apply emits_toFile.
Qed.

(** ** Normalised paths *)

Lemma split_no_slash s :
  Forall (all_chars (λ c, c ≠ "/"%char)) (Path.split s).
Proof.
  induction s as [|c s IH]; simpl.
  - by apply Forall_singleton.
  - destruct (Ascii.eqb_spec c "/") as [->|Hc].
    + by apply Forall_cons.
    + destruct (Path.split s) as [|seg rest]; [by apply Forall_singleton|].
      apply Forall_cons in IH as [Hseg Hrest]. by apply Forall_cons.
Qed.

Lemma Forall_removelast {A} (P : A → Prop) (l : list A) :
  Forall P l → Forall P (removelast l).
Proof.
  induction 1 as [|x l Hx Hl IH]; simpl; [done|].
  destruct l; [done|]. by apply Forall_cons.
Qed.

Lemma step_clean acc seg :
  all_chars (λ c, c ≠ "/"%char) seg →
  Forall simple_segment acc → Forall simple_segment (Path.step acc seg).
Proof.
  intros Hseg Hacc. unfold Path.step.
  destruct (String.eqb_spec seg "") as [->|Hne]; [done|].
  destruct (String.eqb_spec seg ".") as [->|Hdot]; [done|]. simpl.
  destruct (String.eqb_spec seg "..") as [->|Hdots].
  - by apply Forall_removelast.
  - apply Forall_app. split; [done|]. by apply Forall_singleton.
Qed.

Lemma fold_step_clean segs :
  Forall (all_chars (λ c, c ≠ "/"%char)) segs →
  ∀ acc, Forall simple_segment acc →
         Forall simple_segment (fold_left Path.step segs acc).
Proof.
  induction 1 as [|seg segs Hseg Hsegs IH]; intros acc Hacc; simpl; [done|].
  by apply IH, step_clean.
Qed.

Lemma segments_clean p : Forall simple_segment (Path.segments p).
Proof. apply fold_step_clean; [apply split_no_slash | done]. Qed.

Lemma split_segment_render seg segs :
  simple_segment seg → Forall simple_segment segs →
  Path.split (seg +:+ Path.render_segments segs) = seg :: segs.
Proof.
  intros Hseg Hsegs. revert seg Hseg.
  induction Hsegs as [|b segs Hb Hsegs IH]; intros seg [Hseg _]; simpl.
  - rewrite app_empty_r. by apply split_simple.
  - rewrite (app_cons "/" ""), app_empty_l, split_app_slash.
    by rewrite (split_simple seg), IH.
Qed.

Lemma fold_step_simple segs :
  Forall simple_segment segs →
  ∀ acc, fold_left Path.step segs acc = acc ++ segs.
Proof.
  induction 1 as [|seg segs (_ & Hne & Hdot & Hdots) Hsegs IH]; intros acc;
    simpl; [by rewrite app_nil_r|].
  rewrite IH. unfold Path.step.
  apply String.eqb_neq in Hne as ->. apply String.eqb_neq in Hdot as ->.
  apply String.eqb_neq in Hdots as ->. simpl. by rewrite <-app_assoc.
Qed.

(** Rendering normalised segments and reading them back is the
    identity. *)
Lemma segments_render segs :
  Forall simple_segment segs → Path.segments (Path.render segs) = segs.
Proof.
  intros Hsegs. destruct Hsegs as [|seg segs Hseg Hsegs]; [reflexivity|].
  unfold Path.segments, Path.render. simpl Path.render_segments.
  rewrite (app_cons "/" ""), app_empty_l. simpl Path.split.
  rewrite split_segment_render by done.
  change (fold_left Path.step (seg :: segs) [] = seg :: segs).
  by rewrite fold_step_simple by by constructor.
Qed.

Lemma normalize_idempotent p :
  Path.normalize (Path.normalize p) = Path.normalize p.
Proof.
  unfold Path.normalize. by rewrite segments_render by apply segments_clean.
Qed.

Lemma join_segments dir f :
  simple_segment f →
  Path.join dir f = Path.render (Path.segments dir ++ [f]).
Proof.
  intros (Hchars & Hne & Hdot & Hdots).
  unfold Path.join, Path.normalize, Path.segments.
  rewrite app_cons, app_empty_l, split_app_slash,
    (split_simple f Hchars), fold_left_app. simpl.
  unfold Path.step at 1.
  apply String.eqb_neq in Hne as ->. apply String.eqb_neq in Hdot as ->.
  by apply String.eqb_neq in Hdots as ->.
Qed.

(** The directory of a file joined to a directory is that directory,
    normalised. *)
Lemma dirname_join dir f :
  simple_segment f → Path.dirname (Path.join dir f) = Path.normalize dir.
Proof.
  intros Hf. rewrite join_segments by done. unfold Path.dirname.
  rewrite segments_render.
  - by rewrite removelast_last.
  - apply Forall_app. split; [apply segments_clean | by apply Forall_singleton].
Qed.


Lemma outputDir_is_normalized env args :
  ∃ p, outputDir env args = Path.normalize p.
Proof.
  unfold outputDir, Path.resolve, Path.join.
  destruct (get_prop args "outputDir") as [| | | |s| |]; eauto.
  destruct (Str.truthy s); eauto. destruct (String.prefix "/" s); eauto.
Qed.

Lemma outputDir_normal env args :
  Path.normalize (outputDir env args) = outputDir env args.
Proof.
  destruct (outputDir_is_normalized env args) as [p ->].
  apply normalize_idempotent.
Qed.

(** ** What a call does to the outside *)

Lemma emits_generate_tail P env args :
  (∀ p, P (Mkdir p)) → (∀ tw th, P (Resize tw th)) →
  (∀ p c img, P (WriteFile p c img)) → (∀ msg, P (Warn msg)) →
  ∀ data, preserves (emits P) (store_images env args data).
Proof.
  intros HM HR HW HWarn data.
  apply pipeline_store_images;
    [apply _ | by apply emits_mkdir | apply emits_now
    | by intros; apply emits_emit | by intros; apply emits_persist].
Qed.

Lemma handler_run env request w :
  name request = "generate_image" →
  isValidGenerateImageArgs (arguments request) = true →
  let args := arguments request in
  let w1 := mkWorld (files w) (dirs w) (ticks w)
                    (trace w ++ [ApiCall (api_request args)]) in
  handler env request w
  = match images_create env (api_request args) with
    | inl error =>
        (inl (mkMcpError InternalError
                ("Image generation failed: " +:+ message_or_unknown error)),
         logged error w1)
    | inr data =>
        match store_images env args data w1 with
        | (inr results, w') => (inr results, w')
        | (inl error, w') =>
            (inl (mkMcpError InternalError
                    ("Image generation failed: "
                     +:+ message_or_unknown error)),
             logged error w')
        end
    end.
Proof.
  intros Hname Hvalid args w1. rewrite handler_valid by done.
  unfold generate, bind. rewrite together_images_create_run.
  fold args w1. by destruct (images_create env (api_request args)).
Qed.

(** X3: a valid call makes exactly one call to the generation API, before
    anything else, asking for base64 payloads; it is never repeated,
    whether the call then succeeds or fails. *)
Theorem api_is_called_exactly_once env request w :
  name request = "generate_image" →
  isValidGenerateImageArgs (arguments request) = true →
  req_response_format (api_request (arguments request)) = "base64" ∧
  ∃ evs, trace (handler env request w).2
         = trace w ++ ApiCall (api_request (arguments request)) :: evs ∧
         Forall (λ ev, ¬ is_ApiCall ev) evs.
Proof.
  intros Hname Hvalid. split; [reflexivity|].
  rewrite handler_run by done.
  set (P := λ ev, ¬ is_ApiCall ev).
  assert (Htail : ∀ data, preserves (emits P)
                    (store_images env (arguments request) data)).
  { apply emits_generate_tail; by intros; intros []. }
  destruct (images_create _ _) as [error|data].
  - exists [LogError ("Together AI API error: " +:+ exn_message error)].
    simpl. rewrite <-app_assoc. split; [done|].
    apply Forall_singleton. by intros [].
  - destruct (store_images _ _ _ _) as [[error|results] w'] eqn:Hrun;
      apply Htail in Hrun as (evs & Ht & HF); simpl in Ht.
    + exists (evs ++ [LogError ("Together AI API error: "
                                +:+ exn_message error)]).
      simpl. rewrite Ht, <-!app_assoc. split; [done|].
      apply Forall_app. split; [done|]. apply Forall_singleton. by intros [].
    + exists evs. simpl. rewrite Ht, <-app_assoc. by split.
Qed.

Lemma api_is_called_exactly_once_witness :
  let request := Demo.call {["prompt" := JSString "a cat"]} in
  name request = "generate_image" ∧
  isValidGenerateImageArgs (arguments request) = true ∧
  ∃ evs, trace (handler Demo.env request Demo.empty_world).2
         = trace Demo.empty_world
           ++ ApiCall (api_request (arguments request)) :: evs ∧
         Forall (λ ev, ¬ is_ApiCall ev) evs.
Proof.
  intros request. split; [reflexivity|]. split; [vm_compute; reflexivity|].
  apply (api_is_called_exactly_once Demo.env request Demo.empty_world);
    [reflexivity | vm_compute; reflexivity].
Defined.

Lemma emits_generate P env args :
  (∀ req, P (ApiCall req)) → (∀ p, P (Mkdir p)) →
  (∀ tw th, P (Resize tw th)) →
  (∀ p c img, P (WriteFile p c img)) → (∀ msg, P (Warn msg)) →
  preserves (emits P) (generate env args).
Proof.
  intros HA HM HR HW HWarn.
  apply pipeline_generate;
    [apply _ | by apply emits_emit | by apply emits_mkdir | apply emits_now
    | by intros; apply emits_emit | by intros; apply emits_persist].
Qed.

(** X4: the error log gets a line exactly when the call ends in an
    internal error; a success, an unknown tool and invalid parameters log
    nothing. *)
Theorem error_is_logged_iff_internal_error env request w :
  ∃ evs, trace (handler env request w).2 = trace w ++ evs ∧
    (Exists is_LogError evs
     ↔ outcome_code (handler env request w).1 = Some InternalError).
Proof.
  unfold handler.
  destruct (negb (String.eqb _ _)).
  { exists []. simpl. rewrite app_nil_r. split; [done|].
    split; [by intros ?%Exists_nil | done]. }
  destruct (negb (truthy _) || negb (isValidGenerateImageArgs _)).
  { exists []. simpl. rewrite app_nil_r. split; [done|].
    split; [by intros ?%Exists_nil | done]. }
  destruct (generate env (arguments request) w) as [[error|results] w']
    eqn:Hrun;
    apply (emits_generate (λ ev, ¬ is_LogError ev)) in Hrun
      as (evs & Ht & HF); try (by intros; intros []).
  - eexists. simpl. rewrite Ht, <-app_assoc. split; [done|].
    split; [done|]. intros _. apply Exists_app. right. by apply Exists_cons_hd.
  - exists evs. simpl. split; [done|]. split; [|done].
    intros (ev & Hin & Hlog)%Exists_exists.
    rewrite Forall_forall in HF. by destruct (HF ev Hin).
Qed.

(** X5: which error a call ends in.  The tool name is looked at first:
    any other name gives method-not-found, whatever the arguments are.
    Arguments that are missing or fail the guard give invalid-parameters.
    A request that passes both ends in an internal error exactly when the
    try block throws.  The two protocol errors leave the world as it
    was. *)
Theorem error_code_classification env request w :
  let r := handler env request w in
  (outcome_code r.1 = Some MethodNotFound
   ↔ name request ≠ "generate_image") ∧
  (outcome_code r.1 = Some InvalidParams
   ↔ name request = "generate_image" ∧
     (truthy (arguments request) = false
      ∨ isValidGenerateImageArgs (arguments request) = false)) ∧
  (outcome_code r.1 = Some InternalError
   ↔ name request = "generate_image" ∧
     isValidGenerateImageArgs (arguments request) = true ∧
     ∃ error w1, generate env (arguments request) w = (inl error, w1)) ∧
  (outcome_code r.1 = Some MethodNotFound
   ∨ outcome_code r.1 = Some InvalidParams → r.2 = w).
Proof.
  unfold handler.
  destruct (String.eqb_spec (name request) "generate_image") as [Hn|Hn];
    simpl; [|naive_solver].
  destruct (isValidGenerateImageArgs (arguments request)) eqn:Hvalid.
  - rewrite (valid_is_truthy _ Hvalid). simpl.
    destruct (generate env (arguments request) w) as [[error|results] w'];
      simpl; naive_solver.
  - rewrite orb_true_r. simpl. naive_solver.
Qed.

Global Instance touches_only_written_preorder : PreOrder touches_only_written.
Proof.
  split.
  - intros w. exists []. rewrite app_nil_r. by split_and!.
  - intros w1 w2 w3 (e1 & T1 & D1 & F1) (e2 & T2 & D2 & F2).
    exists (e1 ++ e2). rewrite T2, T1, app_assoc.
    split_and!; [done | set_solver |].
    intros p Hp. rewrite F2, F1; [done | |];
      intros c img Hin; apply (Hp c img), elem_of_app; auto.
Qed.

Lemma touches_intro w w' evs :
  trace w' = trace w ++ evs → dirs w ⊆ dirs w' → files w' = files w →
  touches_only_written w w'.
Proof. intros Ht Hd Hf. exists evs. rewrite Hf. by split_and!. Qed.

Lemma touches_emit ev : preserves touches_only_written (emit ev).
Proof. intros w r w' [= <- <-]. by apply (touches_intro _ _ [ev]). Qed.

Lemma touches_now env : preserves touches_only_written (now env).
Proof.
  intros w r w' [= <- <-]. apply (touches_intro _ _ []); simpl;
    [by rewrite app_nil_r | done | done].
Qed.

Lemma touches_mkdir p : preserves touches_only_written (fs_mkdirSync p).
Proof.
  intros w r w'. unfold fs_mkdirSync.
  destruct (existsb _ _); intros [= <- <-]; [reflexivity|].
  apply (touches_intro _ _ [Mkdir p]); simpl; [done | set_solver | done].
Qed.

Lemma touches_toFile env buffer c p :
  preserves touches_only_written (sharp_toFile env buffer c p).
Proof.
  apply pipeline_input; [apply _|]. intros img w r w'.
  destruct (_ && _); intros [= <- <-]; [|reflexivity].
  exists [WriteFile p c img]. simpl. split_and!; [done | done |].
  intros p' Hp'. apply lookup_insert_ne. intros <-.
  apply (Hp' c img), list_elem_of_singleton. done.
Qed.

Lemma touches_persist env format filepath buffer :
  preserves touches_only_written (persist env format filepath buffer).
Proof.
  unfold persist. repeat apply preserves_if; try apply touches_toFile.
  - apply preserves_bind; [apply _ | apply touches_toFile |].
    intros _. apply touches_emit.
  - apply preserves_ret; apply _.
Qed.

(** X6: a call changes the disk nowhere but at the paths it logs a write
    for: every other file is as it was, no file and no directory is
    removed.  This holds for every request, accepted or not, and whether
    the call succeeds or fails. *)
Theorem call_touches_only_written_paths env request w :
  let w' := (handler env request w).2 in
  ∃ evs, trace w' = trace w ++ evs ∧
         dirs w ⊆ dirs w' ∧
         ∀ p, (∀ c img, WriteFile p c img ∉ evs) →
              files w' !! p = files w !! p.
Proof.
  change (touches_only_written w (handler env request w).2).
  unfold handler.
  destruct (negb (String.eqb _ _)); [reflexivity|].
  destruct (negb (truthy _) || negb (isValidGenerateImageArgs _));
    [reflexivity|].
  destruct (generate env (arguments request) w) as [[error|results] w']
    eqn:Hrun;
    apply (pipeline_generate touches_only_written) in Hrun;
    try first [apply touches_emit | apply touches_mkdir | apply touches_now
              | by intros; apply touches_emit
              | by intros; apply touches_persist].
  - simpl. etrans; [done|]. by eapply touches_intro.
  - done.
Qed.

(** ** Where png and jpg files go *)

Lemma written_path_plain format filepath :
  format ≠ "svg" → written_path format filepath = filepath.
Proof. unfold written_path. by intros ->%String.eqb_neq. Qed.

Lemma stores_persist env args dir k timestamp index buffer :
  format_of args ≠ "svg" → (k ≤ index)%nat →
  preserves (emits (stores_under (format_of args) dir k))
    (persist env (format_of args)
       (Path.join dir (filename_of timestamp index (format_of args))) buffer).
Proof.
  intros Hsvg Hk. apply emits_persist; [|done].
  intros img. rewrite written_path_plain by done. simpl. eauto.
Qed.

Lemma stores_process_all env args dir k data index :
  format_of args ≠ "svg" → (k ≤ index)%nat →
  preserves (emits (stores_under (format_of args) dir k))
    (process_all env args dir data index).
Proof.
  intros Hsvg Hk.
  apply pipeline_process_all with (k := k);
    [apply _ | apply emits_now | by intros; apply emits_emit
    | by intros; apply stores_persist | done].
Qed.

Lemma stores_generate env args :
  format_of args ≠ "svg" →
  preserves (emits (stores_under (format_of args) (outputDir env args) 0))
    (generate env args).
Proof.
  intros Hsvg.
  apply pipeline_generate;
    [apply _ | by apply emits_emit | by apply emits_mkdir | apply emits_now
    | by intros; apply emits_emit
    | intros; apply stores_persist; [done | lia]].
Qed.

(** X7: for a valid png or jpg request, every file the call writes lies
    directly in the resolved output directory, is named
    image_<timestamp>_<index>.<format>, and is encoded with the codec of
    the format (JPEG for jpg, PNG for png); no warning is emitted. *)
Theorem png_jpg_files_land_in_output_directory env request w :
  name request = "generate_image" →
  isValidGenerateImageArgs (arguments request) = true →
  format_of (arguments request) ≠ "svg" →
  let args := arguments request in
  ∃ evs, trace (handler env request w).2 = trace w ++ evs ∧
    (∀ msg, Warn msg ∉ evs) ∧
    ∀ p c img, WriteFile p c img ∈ evs →
      c = codec_of (format_of args) ∧
      Path.dirname p = outputDir env args ∧
      ∃ timestamp index,
        p = Path.join (outputDir env args)
              (filename_of timestamp index (format_of args)).
Proof.
  intros Hname Hvalid Hsvg args. subst args.
  set (args := arguments request) in *. rewrite handler_valid by done.
  fold args.
  assert (Hshape : ∀ evs,
    Forall (stores_under (format_of args) (outputDir env args) 0) evs →
    (∀ msg, Warn msg ∉ evs) ∧
    ∀ p c img, WriteFile p c img ∈ evs →
      c = codec_of (format_of args) ∧
      Path.dirname p = outputDir env args ∧
      ∃ timestamp index,
        p = Path.join (outputDir env args)
              (filename_of timestamp index (format_of args))).
  { intros evs HF. rewrite Forall_forall in HF. split.
    - intros msg Hin. by apply HF in Hin.
    - intros p c img Hin. apply HF in Hin as (ts & i & _ & -> & ->).
      split_and!; [done | | eauto].
      rewrite dirname_join by by apply filename_of_simple, valid_format.
      apply outputDir_normal. }
  destruct (generate env args w) as [[error|results] w'] eqn:Hrun;
    apply stores_generate in Hrun as (evs & Ht & HF); try done.
  - eexists. simpl. rewrite Ht, <-app_assoc. split; [done|].
    apply Hshape, Forall_app. split; [done|]. by apply Forall_singleton.
  - exists evs. split; [done|]. by apply Hshape.
Qed.

Lemma png_jpg_files_land_in_output_directory_witness :
  let request := Demo.call (<["format" := JSString "jpg"]>
                              {["prompt" := JSString "a cat"]}) in
  name request = "generate_image" ∧
  isValidGenerateImageArgs (arguments request) = true ∧
  format_of (arguments request) ≠ "svg" ∧
  ∃ evs, trace (handler Demo.env request Demo.empty_world).2
         = trace Demo.empty_world ++ evs ∧
    (∀ msg, Warn msg ∉ evs) ∧
    ∀ p c img, WriteFile p c img ∈ evs →
      c = codec_of (format_of (arguments request)) ∧
      Path.dirname p = outputDir Demo.env (arguments request) ∧
      ∃ timestamp index,
        p = Path.join (outputDir Demo.env (arguments request))
              (filename_of timestamp index (format_of (arguments request))).
Proof.
  intros request. split; [reflexivity|]. split; [vm_compute; reflexivity|].
  split; [vm_compute; discriminate|].
  apply (png_jpg_files_land_in_output_directory Demo.env request
           Demo.empty_world);
    [reflexivity | vm_compute; reflexivity | vm_compute; discriminate].
Defined.

(** ** What a successful call reports *)

Lemma handler_success_inv env request w results w' :
  handler env request w = (inr results, w') →
  name request = "generate_image" ∧
  isValidGenerateImageArgs (arguments request) = true ∧
  ∃ data w2,
    images_create env (api_request (arguments request)) = inr data ∧
    files w2 = files w ∧ ticks w2 = ticks w ∧
    process_all env (arguments request)
      (outputDir env (arguments request)) data 0 w2 = (inr results, w').
Proof.
  unfold handler.
  destruct (String.eqb_spec (name request) "generate_image") as [Hn|Hn];
    [|done]. simpl.
  destruct (isValidGenerateImageArgs (arguments request)) eqn:Hvalid;
    [|by rewrite orb_true_r].
  rewrite (valid_is_truthy _ Hvalid). simpl.
  destruct (generate _ _ w) as [[e|rs] w1] eqn:Hrun; [done|].
  intros [= <- <-]. split_and!; [done..|]. revert Hrun.
  unfold generate, bind at 1. rewrite together_images_create_run.
  destruct (images_create _ _) as [e|data]; [done|].
  unfold store_images, bind at 1, fs_existsSync.
  unfold bind at 1.
  match goal with |- context [(if ?b then _ else _) ?w0] =>
    destruct ((if b then fs_mkdirSync _ else ret ()) w0) as [[e|[]] w2]
      eqn:Hmk; [done|];
    assert (Hq : quiet w0 w2) by
      (revert Hmk; apply preserves_if;
         [apply quiet_mkdir | apply preserves_ret; apply _])
  end.
  intros Hall. exists data, w2. destruct Hq as (Hf & Hticks & _).
  by split_and!.
Qed.

Lemma sharp_toFile_returns env buffer c p w w' :
  sharp_toFile env buffer c p w = (inr tt, w') →
  ∃ img, holds env buffer img ∧
    w' = mkWorld (<[p := ImageFile c img]> (files w)) (dirs w) (ticks w)
                 (trace w ++ [WriteFile p c img]).
Proof.
  unfold sharp_toFile, bind.
  destruct buffer as [s|img]; simpl.
  - destruct (decode env s) as [img|] eqn:Hdecode; simpl; [|done].
    destruct (_ && _); [|done]. intros [= <-]. eauto.
  - destruct (_ && _); [|done]. intros [= <-]. eauto.
Qed.

Lemma dimensions_final_of_entry d filepath filename original final :
  get_prop (get_prop (JSObject (entry d filepath filename original final))
                     "dimensions") "final"
  = final.
Proof.
  unfold entry, get_prop. rewrite lookup_insert_eq. simpl.
  by rewrite lookup_insert_eq.
Qed.


Global Instance same_ticks_preorder : PreOrder same_ticks.
Proof.
  split; [by intros w | intros w1 w2 w3; unfold same_ticks; congruence].
Qed.


Lemma save_and_report_stored env args dir d index buffer w r w' :
  format_of args = "png" ∨ format_of args = "jpg" →
  save_and_report env args dir d index buffer w = (inr r, w') →
  ∃ img, holds env buffer img ∧
         entry_on_disk args dir index d r w' (clock env (ticks w)) img.
Proof.
  intros Hformat. unfold save_and_report, bind at 1, now.
  rewrite persist_cases.
  assert (String.eqb (format_of args) "svg" = false) as ->
    by (apply String.eqb_neq; by destruct Hformat as [-> | ->]).
  assert (String.eqb (format_of args) "png"
          || String.eqb (format_of args) "jpg" = true) as ->
    by (by destruct Hformat as [-> | ->]).
  rewrite written_path_plain by (by destruct Hformat as [-> | ->]).
  unfold bind at 1.
  destruct (sharp_toFile _ _ _ _ _) as [[e|[]] w1] eqn:Hwrite; [done|].
  apply sharp_toFile_returns in Hwrite as (img & Himg & ->).
  unfold bind, sharp_file_metadata. simpl. rewrite lookup_insert_eq.
  intros [= <- <-]. exists img. split; [done|].
  split; [done|]. simpl. by rewrite lookup_insert_eq.
Qed.

(** What a returning resize step hands on. *)
Lemma resize_if_needed_returns env args buffer w buffer' w' :
  resize_if_needed env args buffer w = (inr buffer', w') →
  ticks w' = ticks w ∧
  if Num.lt (requestWidth args) (Num.of_Z 256)
     || Num.lt (requestHeight args) (Num.of_Z 256)
  then ∃ source tw th,
    holds env buffer source ∧
    positive_integer
      (target_dimensions (requestWidth args) (requestHeight args)
         (or_zero (Num.of_N (img_width source)))
         (or_zero (Num.of_N (img_height source)))).1 = Some tw ∧
    positive_integer
      (target_dimensions (requestWidth args) (requestHeight args)
         (or_zero (Num.of_N (img_width source)))
         (or_zero (Num.of_N (img_height source)))).2 = Some th ∧
    buffer' = Raster (mkImage tw th)
  else buffer' = buffer.
Proof.
  intros Hrun. split.
  { by apply quiet_resize_if_needed in Hrun as (_ & ? & _). }
  revert Hrun. unfold resize_if_needed.
  destruct (_ || _); [|by intros [= <- _]].
  unfold sharp_metadata, bind at 1.
  destruct buffer as [s|img0]; simpl.
  - destruct (decode env s) as [source|] eqn:Hdecode; simpl; [|done].
    destruct (target_dimensions _ _ _ _) as [tw th] eqn:Htarget.
    unfold sharp_resize, bind, emit. simpl.
    destruct (positive_integer tw) as [ntw|] eqn:Htw;
      destruct (positive_integer th) as [nth|] eqn:Hth; try done.
    simpl. rewrite Hdecode. simpl. intros [= <- _].
    exists source, ntw, nth. by rewrite Htarget.
  - destruct (target_dimensions _ _ _ _) as [tw th] eqn:Htarget.
    unfold sharp_resize, bind, emit. simpl.
    destruct (positive_integer tw) as [ntw|] eqn:Htw;
      destruct (positive_integer th) as [nth|] eqn:Hth; try done.
    simpl. intros [= <- _].
    exists img0, ntw, nth. by rewrite Htarget.
Qed.

Lemma process_image_stored env args dir d index w r w' :
  format_of args = "png" ∨ format_of args = "jpg" →
  process_image env args dir d index w = (inr r, w') →
  reports_stored env args dir index d r w'.
Proof.
  intros Hformat. unfold process_image, bind at 1.
  destruct (get_prop (JSObject d) "b64_json") as [| | | |payload| |] eqn:Hd;
    try done.
  assert (Hpayload : d !! "b64_json" = Some (JSString payload)).
  { unfold get_prop in Hd. by destruct (d !! "b64_json"); simplify_eq/=. }
  simpl. unfold bind.
  destruct (resize_if_needed env args (Base64Bytes payload) w)
    as [[e|buffer'] w1] eqn:Hr; [done|].
  apply resize_if_needed_returns in Hr as [Hticks Hr].
  intros (img & Himg & Hentry)%save_and_report_stored; [|done].
  rewrite Hticks in Hentry. unfold reports_stored, stored_size.
  destruct (_ || _).
  - destruct Hr as (source & tw & th & Hsource & Htw & Hth & ->).
    simpl in Himg, Hsource. subst img.
    exists (clock env (ticks w)), source, (mkImage tw th). eauto 10.
  - subst buffer'. simpl in Himg.
    exists (clock env (ticks w)), img, img. eauto 10.
Qed.

Lemma stored_path_is_fresh env args dir data index k timestamp w results w' :
  format_of args = "png" ∨ format_of args = "jpg" →
  (k < index)%nat →
  process_all env args dir data index w = (results, w') →
  files w' !! Path.join dir (filename_of timestamp k (format_of args))
  = files w !! Path.join dir (filename_of timestamp k (format_of args)).
Proof.
  intros Hformat Hk Hrun.
  assert (Hsvg : format_of args ≠ "svg") by by destruct Hformat as [-> | ->].
  assert (Hsimple : ∀ ts i, simple_segment (filename_of ts i (format_of args))).
  { intros. apply filename_of_simple. naive_solver. }
  pose proof Hrun as (evs & Ht & HF)%(stores_process_all _ _ _ index);
    [|done|lia].
  apply pipeline_process_all with (k := 0%nat) (R := touches_only_written)
    in Hrun as (evs' & Ht' & _ & Hsame);
    [|apply _ | apply touches_now | by intros; apply touches_emit
     | by intros; apply touches_persist | lia].
  rewrite Ht in Ht'. apply app_inv_head in Ht' as <-.
  apply Hsame. intros c img Hin.
  rewrite Forall_forall in HF. apply HF in Hin as (ts & j & Hj & _ & Heq).
  apply join_inj, filename_of_inj in Heq; [lia | done..].
Qed.

Lemma process_all_stored env args dir data :
  format_of args = "png" ∨ format_of args = "jpg" →
  ∀ index w results w',
    process_all env args dir data index w = (inr results, w') →
    ∀ i r, results !! i = Some r →
      ∃ d, data !! i = Some d ∧
           reports_stored env args dir (index + i) d r w'.
Proof.
  intros Hformat.
  induction data as [|d data IH]; intros index w results w'; simpl.
  - intros [= <- <-]. by intros [|i] ??.
  - unfold bind at 1.
    destruct (process_image _ _ _ _ _ w) as [[e|r] w1] eqn:Hone; [done|].
    unfold bind.
    destruct (process_all _ _ _ _ _ w1) as [[e|rs] w2] eqn:Hrest; [done|].
    intros [= <- <-].
    apply process_image_stored in Hone
      as (ts & source & img & Hsize & Hr & Hfile); [|done].
    pose proof Hrest as Hfresh.
    pose proof (IH _ _ _ _ Hrest) as Hothers.
    intros [|i] r' Hr'; simplify_eq/=.
    + exists d. split; [done|]. rewrite Nat.add_0_r.
      exists ts, source, img. split; [done|]. split; [done|]. simpl.
      erewrite stored_path_is_fresh; [done | done | | done]. lia.
    + destruct (Hothers i r' Hr') as (d' & Hd' & Hstored).
      exists d'. split; [done|]. by rewrite Nat.add_succ_r.
Qed.

(** X8: after a successful png or jpg call the response tells the truth
    about the disk: the filepath of every entry names a file that is
    there, encoded with the codec of the format, and whose pixel size is
    the entry's dimensions.final. *)
Theorem successful_response_matches_disk env request w results w' :
  handler env request w = (inr results, w') →
  format_of (arguments request) ≠ "svg" →
  ∀ i r, results !! i = Some r →
    ∃ filepath img,
      filepath_of r = JSString filepath ∧
      files w' !! filepath
      = Some (ImageFile (codec_of (format_of (arguments request))) img) ∧
      get_prop (get_prop (JSObject r) "dimensions") "final"
      = size_object (Num.of_N (img_width img)) (Num.of_N (img_height img)).
Proof.
  intros (Hname & Hvalid & data & w2 & _ & _ & _ & Hall)%handler_success_inv
    Hsvg i r Hr.
  assert (Hformat : format_of (arguments request) = "png"
                    ∨ format_of (arguments request) = "jpg").
  { destruct (valid_format _ Hvalid) as [?|[?|?]]; auto. done. }
  pose proof (process_all_stored _ _ _ _ Hformat _ _ _ _ Hall) as Hstored.
  destruct (Hstored i r Hr) as (d & _ & ts & source & img & _ & -> & Hfile).
  eexists _, img. rewrite filepath_of_entry, dimensions_final_of_entry.
  by split_and!.
Qed.

Lemma successful_response_matches_disk_witness :
  let request := Demo.call {["prompt" := JSString "a cat"]} in
  ∃ results w',
    handler Demo.env request Demo.empty_world = (inr results, w') ∧
    format_of (arguments request) ≠ "svg" ∧
    ∀ i r, results !! i = Some r →
      ∃ filepath img,
        filepath_of r = JSString filepath ∧
        files w' !! filepath
        = Some (ImageFile (codec_of (format_of (arguments request))) img) ∧
        get_prop (get_prop (JSObject r) "dimensions") "final"
        = size_object (Num.of_N (img_width img)) (Num.of_N (img_height img)).
Proof.
  intros request.
  destruct (handler Demo.env request Demo.empty_world) as [[e|results] w']
    eqn:Hrun.
  - vm_compute in Hrun. discriminate.
  - exists results, w'. split; [reflexivity|].
    split; [vm_compute; discriminate|].
    apply (successful_response_matches_disk Demo.env request
             Demo.empty_world results w' Hrun).
    vm_compute. discriminate.
Defined.







(** ** What the handler reads of its arguments *)

Lemma process_image_ext env a b dir d index :
  same_settings env a b →
  process_image env a dir d index = process_image env b dir d index.
Proof.
  intros (_ & Hw & Hh & _ & Hf).
  unfold process_image, resize_if_needed, save_and_report,
    apiWidth, apiHeight.
  by rewrite Hw, Hh, Hf.
Qed.

Lemma process_all_ext env a b dir data :
  same_settings env a b →
  ∀ index, process_all env a dir data index = process_all env b dir data index.
Proof.
  intros Hsame. induction data as [|d data IH]; intros index; simpl; [done|].
  by rewrite (process_image_ext env a b), IH.
Qed.

Lemma bind_ext {A B} (m : M A) (k1 k2 : A → M B) w :
  (∀ x w', k1 x w' = k2 x w') → bind m k1 w = bind m k2 w.
Proof. intros Hk. unfold bind. destruct (m w) as [[e|x] w1]; auto. Qed.

Lemma generate_ext env a b w :
  same_settings env a b → generate env a w = generate env b w.
Proof.
  intros Hsame. pose proof Hsame as (Hreq & _ & _ & Hdir & _).
  unfold generate, store_images. rewrite Hreq, Hdir.
  apply bind_ext. intros data w1. apply bind_ext. intros present w2.
  apply bind_ext. intros _ w3. by rewrite (process_all_ext env a b).
Qed.

Lemma handler_ext env n (a b : JSValue) w :
  truthy a = truthy b →
  isValidGenerateImageArgs a = isValidGenerateImageArgs b →
  same_settings env a b →
  handler env (mkRequest n a) w = handler env (mkRequest n b) w.
Proof.
  intros Ht Hv Hsame. unfold handler. simpl.
  by rewrite Ht, Hv, (generate_ext env a b).
Qed.

Lemma get_prop_insert_ne (o : JSObj) k v k' :
  k ≠ k' → get_prop (JSObject (<[k := v]> o)) k' = get_prop (JSObject o) k'.
Proof. intros Hne. unfold get_prop. by rewrite lookup_insert_ne. Qed.

Lemma get_prop_insert_eq (o : JSObj) k v :
  get_prop (JSObject (<[k := v]> o)) k = v.
Proof. unfold get_prop. by rewrite lookup_insert_eq. Qed.

Lemma get_prop_absent (o : JSObj) k :
  o !! k = None → get_prop (JSObject o) k = JSUndefined.
Proof. unfold get_prop. by intros ->. Qed.

(** Two objects that agree on the eight recognized properties are the
    same request to the guard and to the handler. *)
Lemma recognized_fields_decide env (oa ob : JSObj) :
  (∀ k, k ∈ recognized_fields →
        get_prop (JSObject oa) k = get_prop (JSObject ob) k) →
  isValidGenerateImageArgs (JSObject oa) = isValidGenerateImageArgs (JSObject ob)
  ∧ same_settings env (JSObject oa) (JSObject ob).
Proof.
  intros H.
  assert (Hprompt := H "prompt"). assert (Hmodel := H "model").
  assert (Hwidth := H "width"). assert (Hheight := H "height").
  assert (Hsteps := H "steps"). assert (Hn := H "n").
  assert (Hdir := H "outputDir"). assert (Hformat := H "format").
  unfold recognized_fields in *. rewrite !elem_of_cons in *.
  unfold isValidGenerateImageArgs, same_settings, api_request, apiWidth,
    apiHeight, requestWidth, requestHeight, prompt_of, outputDir, format_of.
  rewrite Hprompt, Hmodel, Hwidth, Hheight, Hsteps, Hn, Hdir, Hformat
    by auto 10.
  done.
Qed.

(** X10: properties other than the eight the tool knows are ignored: adding
    one to the arguments changes neither the guard's verdict nor anything
    the call does or returns. *)
Theorem unknown_properties_are_ignored env n (o : JSObj) k v w :
  k ∉ recognized_fields →
  isValidGenerateImageArgs (JSObject (<[k := v]> o))
  = isValidGenerateImageArgs (JSObject o) ∧
  handler env (mkRequest n (JSObject (<[k := v]> o))) w
  = handler env (mkRequest n (JSObject o)) w.
Proof.
  intros Hk.
  destruct (recognized_fields_decide env (<[k := v]> o) o) as [Hvalid Hsame].
  { intros k' Hk'. apply get_prop_insert_ne. by intros ->. }
  split; [done|]. by apply handler_ext.
Qed.

Lemma unknown_properties_are_ignored_witness :
  let o : JSObj := {["prompt" := JSString "a cat"]} in
  ("seed" ∉ recognized_fields) ∧
  (handler Demo.env
     (mkRequest "generate_image"
        (JSObject (<["seed" := JSNumber (Num.of_Z 7)]> o))) Demo.empty_world
   = handler Demo.env (mkRequest "generate_image" (JSObject o))
       Demo.empty_world).
Proof.
  intros o.
  assert (Hk : "seed" ∉ recognized_fields).
  { unfold recognized_fields. rewrite !not_elem_of_cons.
    split_and!; try discriminate. apply not_elem_of_nil. }
  split; [exact Hk|].
  apply (unknown_properties_are_ignored Demo.env "generate_image" o "seed"
           (JSNumber (Num.of_Z 7)) Demo.empty_world Hk).
Defined.

(** ** The advertised schema *)

Lemma schema_default_cases k :
  schema_default k ≠ JSUndefined →
  (k = "model"
   ∧ schema_default k = JSString "black-forest-labs/FLUX.1.1-pro") ∨
  (k = "width" ∧ schema_default k = JSNumber (Num.of_Z 1024)) ∨
  (k = "height" ∧ schema_default k = JSNumber (Num.of_Z 768)) ∨
  (k = "steps" ∧ schema_default k = JSNumber (Num.of_Z 28)) ∨
  (k = "n" ∧ schema_default k = JSNumber (Num.of_Z 1)) ∨
  (k = "format" ∧ schema_default k = JSString "png").
Proof.
  destruct (decide (k = "model")) as [->|?]; [auto|].
  destruct (decide (k = "width")) as [->|?]; [auto 10|].
  destruct (decide (k = "height")) as [->|?]; [auto 10|].
  destruct (decide (k = "steps")) as [->|?]; [auto 10|].
  destruct (decide (k = "n")) as [->|?]; [auto 10|].
  destruct (decide (k = "format")) as [->|?]; [auto 10|].
  intros Hdef. exfalso. apply Hdef. clear Hdef.
  unfold schema_default, generate_image_inputSchema.
  rewrite get_prop_insert_ne, get_prop_insert_eq by done.
  destruct (decide (k = "prompt")) as [->|?]; [reflexivity|].
  destruct (decide (k = "outputDir")) as [->|?]; [reflexivity|].
  unfold generate_image_properties.
  rewrite !get_prop_insert_ne by done. reflexivity.
Qed.

Ltac read_fields Habsent :=
  unfold isValidGenerateImageArgs, same_settings, api_request, apiWidth,
    apiHeight, requestWidth, requestHeight, prompt_of, outputDir, format_of;
  rewrite ?get_prop_insert_eq;
  rewrite ?get_prop_insert_ne by done;
  rewrite ?(get_prop_absent _ _ Habsent).

Lemma number_or_default d : number_or (JSNumber d) d = number_or JSUndefined d.
Proof. unfold number_or. by destruct (Num.truthy d). Qed.

Lemma default_is_what_absence_means env (o : JSObj) k :
  o !! k = None → schema_default k ≠ JSUndefined →
  isValidGenerateImageArgs (JSObject (<[k := schema_default k]> o))
  = isValidGenerateImageArgs (JSObject o)
  ∧ same_settings env (JSObject (<[k := schema_default k]> o)) (JSObject o).
Proof.
  intros Habsent
    [[-> ->] | [[-> ->] | [[-> ->] | [[-> ->] | [[-> ->] | [-> ->]]]]]]
    %schema_default_cases;
    read_fields Habsent; rewrite ?number_or_default; done.
Qed.

(** X11: the defaults the tool advertises in its input schema are the
    defaults the handler applies: for every property with an advertised
    default, a request that leaves the property out is handled exactly as
    the request that passes the advertised value. *)
Theorem advertised_defaults_are_applied env n (o : JSObj) k w :
  o !! k = None → schema_default k ≠ JSUndefined →
  handler env (mkRequest n (JSObject (<[k := schema_default k]> o))) w
  = handler env (mkRequest n (JSObject o)) w.
Proof.
  intros Habsent Hdefault.
  destruct (default_is_what_absence_means env o k Habsent Hdefault)
    as [Hvalid Hsame].
  by apply handler_ext.
Qed.

Lemma advertised_defaults_are_applied_witness :
  let o : JSObj := {["prompt" := JSString "a cat"]} in
  o !! "width" = None ∧
  schema_default "width" = JSNumber (Num.of_Z 1024) ∧
  handler Demo.env
    (mkRequest "generate_image"
       (JSObject (<["width" := schema_default "width"]> o)))
    Demo.empty_world
  = handler Demo.env (mkRequest "generate_image" (JSObject o))
      Demo.empty_world.
Proof.
  intros o. split; [reflexivity|]. split; [reflexivity|].
  apply (advertised_defaults_are_applied Demo.env "generate_image" o "width"
           Demo.empty_world); [reflexivity | discriminate].
Defined.

(** ** File names *)

(** X12: a file name determines the clock reading, the index and the
    format it was built from: two images get the same name only if all
    three agree, so a later call, or another index, never reuses a
    name. *)
Theorem filename_determines_its_parts ts ts' i i' format format' :
  filename_of ts i format = filename_of ts' i' format' →
  ts = ts' ∧ i = i' ∧ format = format'.
Proof.
  unfold filename_of, Str.of_Z, Str.of_nat.
  rewrite !app_cons, !app_empty_l. intros [= Heq].
  apply app_separator_inj in Heq as [Hts Heq];
    [|eapply all_chars_impl, pretty_Z_plain; by intros c (? & _)..].
  apply app_separator_inj in Heq as [Hi Hformat];
    [|eapply all_chars_impl, pretty_nat_plain; by intros c (_ & ? & _)..].
  apply (inj pretty) in Hts. apply (inj pretty) in Hi. done.
Qed.

Lemma filename_determines_its_parts_witness :
  filename_of 1700000000000 1 "png" = "image_1700000000000_1.png" ∧
  (1700000000000 = 1700000000000 ∧ 1%nat = 1%nat ∧ "png" = "png").
Proof.
  split; [reflexivity|].
  apply (filename_determines_its_parts
           1700000000000 1700000000000 1 1 "png" "png").
  reflexivity.
Defined.

(** ** Failures before anything is written *)

(** X13: when the generation API fails, the call has touched nothing: no
    file, no directory, no clock reading; it has called the API, logged the
    error and answers with an internal error carrying the API's message. *)
Theorem api_failure_leaves_disk_untouched env request w error :
  name request = "generate_image" →
  isValidGenerateImageArgs (arguments request) = true →
  images_create env (api_request (arguments request)) = inl error →
  handler env request w
  = (inl (mkMcpError InternalError
            ("Image generation failed: " +:+ message_or_unknown error)),
     mkWorld (files w) (dirs w) (ticks w)
       (trace w ++ [ApiCall (api_request (arguments request));
                    LogError ("Together AI API error: "
                              +:+ exn_message error)])).
Proof.
  intros Hname Hvalid Hfail. rewrite handler_run by done.
  rewrite Hfail. unfold logged, on_error. simpl. by rewrite <-app_assoc.
Qed.

Lemma api_failure_leaves_disk_untouched_witness :
  let request := Demo.call {["prompt" := JSString "a cat"]} in
  name request = "generate_image" ∧
  isValidGenerateImageArgs (arguments request) = true ∧
  images_create Cases.env_api_down (api_request (arguments request))
  = inl (mkExn "Request timed out") ∧
  handler Cases.env_api_down request Demo.empty_world
  = (inl (mkMcpError InternalError
            "Image generation failed: Request timed out"),
     mkWorld ∅ ∅ 0
       [ApiCall (api_request (arguments request));
        LogError "Together AI API error: Request timed out"]).
Proof.
  intros request. split; [reflexivity|]. split; [vm_compute; reflexivity|].
  split; [reflexivity|].
  apply (api_failure_leaves_disk_untouched Cases.env_api_down request
           Demo.empty_world (mkExn "Request timed out"));
    [reflexivity | vm_compute; reflexivity | reflexivity].
Defined.

(** ** Dimensions the imaging library cannot use *)






(** ** The svg branch where it works *)

Lemma no_dot_is_svg_free s : all_chars (λ c, c ≠ "."%char) s → svg_free s.
Proof.
  intros Hs a b ->. apply all_chars_app in Hs as [_ Hs].
  rewrite app_cons in Hs. by destruct Hs as [[] _].
Qed.

(** X15: when no directory on the way to the output directory has [.svg]
    in its name and the svg branch returns, the image is on disk as a PNG
    under the name the entry reports with its extension turned into
    .png, and the two things logged are that write and the warning. *)
Theorem svg_branch_writes_png_beside env dir timestamp index buffer w w' :
  svg_free (Path.render_segments (Path.segments dir)) →
  persist env "svg" (Path.join dir (filename_of timestamp index "svg"))
    buffer w = (inr tt, w') →
  let png := Path.join dir (filename_of timestamp index "png") in
  ∃ img, holds env buffer img ∧
    files w' !! png = Some (ImageFile PNG img) ∧
    trace w' = trace w ++ [WriteFile png PNG img;
                           Warn "SVG output is not fully supported yet"].
Proof.
  intros Hfree Hrun png.
  apply persist_svg_returns in Hrun as (img & Himg & Hfile & Ht).
  rewrite svg_swap_hits_extension in Hfile, Ht by done. eauto.
Qed.

Lemma svg_branch_writes_png_beside_witness :
  let dir := "/home/user/output" in
  let w := Demo.ready_world in
  ∃ w',
    persist Demo.env "svg" (Path.join dir (filename_of 5 0 "svg"))
      (Base64Bytes "SQUARE") w = (inr tt, w') ∧
    files w' !! "/home/user/output/image_5_0.png"
    = Some (ImageFile PNG Demo.square).
Proof.
  intros dir w.
  destruct (persist Demo.env "svg" (Path.join dir (filename_of 5 0 "svg"))
              (Base64Bytes "SQUARE") w) as [[e|[]] w'] eqn:Hrun.
  - vm_compute in Hrun. discriminate.
  - exists w'. split; [reflexivity|].
    destruct (svg_branch_writes_png_beside Demo.env dir 5 0
                (Base64Bytes "SQUARE") w w') as (img & Himg & Hfile & _);
      [|exact Hrun|].
    + apply no_dot_is_svg_free. vm_compute. repeat split; discriminate.
    + simpl in Himg. injection Himg as <-. exact Hfile.
Defined.

(** ** The output directory *)

Global Instance same_dirs_preorder : PreOrder same_dirs.
Proof.
  split; [by intros w | intros w1 w2 w3; unfold same_dirs; congruence].
Qed.

Lemma same_dirs_persist env format filepath buffer :
  preserves same_dirs (persist env format filepath buffer).
Proof.
  assert (Hfile : ∀ c p, preserves same_dirs (sharp_toFile env buffer c p)).
  { intros c p. apply pipeline_input; [apply _|]. intros img w r w'.
    by destruct (_ && _); intros [= <- <-]. }
  unfold persist. repeat apply preserves_if; try apply Hfile.
  - apply preserves_bind; [apply _ | apply Hfile |].
    intros _ w r w'. by intros [= <- <-].
  - apply preserves_ret; apply _.
Qed.

Lemma same_dirs_process_all env args dir data index :
  preserves same_dirs (process_all env args dir data index).
Proof.
  apply pipeline_process_all with (k := 0%nat);
    [apply _ | by intros w r w' [= <- <-] | by intros tw th w r w' [= <- <-]
    | by intros; apply same_dirs_persist | lia].
Qed.

Lemma prefixes_last acc segs :
  segs ≠ [] → Path.render (acc ++ segs) ∈ Path.prefixes acc segs.
Proof.
  revert acc. induction segs as [|seg segs IH]; intros acc Hne; [done|].
  simpl. destruct segs as [|seg' segs].
  - apply elem_of_cons. by left.
  - apply elem_of_cons. right.
    rewrite (cons_middle seg), app_assoc. by apply IH.
Qed.

Lemma normalized_is_root_or_ancestor p :
  Path.normalize p = p → p = "/" ∨ p ∈ Path.ancestors p.
Proof.
  intros Hp. unfold Path.ancestors.
  destruct (Path.segments p) as [|seg segs] eqn:Hsegs.
  - left. rewrite <-Hp. unfold Path.normalize. by rewrite Hsegs.
  - right. rewrite <-Hp at 1. unfold Path.normalize. rewrite Hsegs.
    by apply (prefixes_last []).
Qed.

Lemma store_images_dirs env args data w :
  let dir := outputDir env args in
  let w' := (store_images env args data w).2 in
  (is_dir w dir || is_file w dir = true → dirs w' = dirs w) ∧
  (is_dir w dir || is_file w dir = false →
   existsb (is_file w) (Path.ancestors dir) = false →
   is_dir w' dir = true ∧
   dirs w' = dirs w ∪ list_to_set (Path.ancestors dir)).
Proof.
  intros dir w'. subst w'.
  destruct (store_images env args data w) as [r w'] eqn:Hrun. simpl.
  revert Hrun. unfold store_images, bind at 1, fs_existsSync. fold dir.
  unfold bind at 1.
  destruct (is_dir w dir || is_file w dir) eqn:Hexists; simpl.
  - intros Hall%same_dirs_process_all. by split.
  - unfold fs_mkdirSync.
    destruct (existsb (is_file w) (Path.ancestors dir)) eqn:Hfree.
    { intros _. by split. }
    intros Hall%same_dirs_process_all. unfold same_dirs in Hall.
    simpl in Hall. split; [done|]. intros _ _. unfold is_dir.
    rewrite Hall. split; [|done].
    destruct (normalized_is_root_or_ancestor dir) as [-> | Hin];
      [apply outputDir_normal | done |].
    apply orb_true_iff. right. apply bool_decide_eq_true. set_solver.
Qed.

(** X16: the output directory is made only when it is missing.  If
    something already exists at its path, the call makes no directory at
    all.  If nothing exists there and no file stands in the way, then once
    the API has answered the directory and its missing parents are made,
    and they are the only directories the call adds, whether the images
    are then stored or not. *)
Theorem output_directory_is_made_only_when_missing env request w data :
  name request = "generate_image" →
  isValidGenerateImageArgs (arguments request) = true →
  images_create env (api_request (arguments request)) = inr data →
  let dir := outputDir env (arguments request) in
  let w' := (handler env request w).2 in
  (is_dir w dir || is_file w dir = true → dirs w' = dirs w) ∧
  (is_dir w dir || is_file w dir = false →
   existsb (is_file w) (Path.ancestors dir) = false →
   is_dir w' dir = true ∧
   dirs w' = dirs w ∪ list_to_set (Path.ancestors dir)).
Proof.
  intros Hname Hvalid Hdata dir w'. subst w'.
  rewrite handler_run by done. rewrite Hdata. set (w1 := mkWorld _ _ _ _).
  pose proof (store_images_dirs env (arguments request) data w1) as Hstore.
  fold dir in Hstore.
  change (is_dir w1 dir || is_file w1 dir)
    with (is_dir w dir || is_file w dir) in Hstore.
  change (existsb (is_file w1) (Path.ancestors dir))
    with (existsb (is_file w) (Path.ancestors dir)) in Hstore.
  change (dirs w1) with (dirs w) in Hstore.
  by destruct (store_images _ _ _ w1) as [[e|rs] w2].
Qed.

Lemma output_directory_witness :
  let request := Demo.call {["prompt" := JSString "a cat"]} in
  let dir := outputDir Demo.env (arguments request) in
  dir = "/home/user/output" ∧
  is_dir (handler Demo.env request Demo.empty_world).2 dir = true ∧
  dirs (handler Demo.env request Demo.ready_world).2 = dirs Demo.ready_world.
Proof.
  intros request dir. split; [vm_compute; reflexivity|].
  destruct (output_directory_is_made_only_when_missing Demo.env request
              Demo.empty_world
              [ {["b64_json" := JSString "SQUARE"]} ;
                {["b64_json" := JSString "LANDSCAPE"]} ])
    as [_ Hmissing]; [reflexivity | vm_compute; reflexivity | reflexivity |].
  destruct (output_directory_is_made_only_when_missing Demo.env request
              Demo.ready_world
              [ {["b64_json" := JSString "SQUARE"]} ;
                {["b64_json" := JSString "LANDSCAPE"]} ])
    as [Hpresent _]; [reflexivity | vm_compute; reflexivity | reflexivity |].
  split.
  - apply Hmissing; vm_compute; reflexivity.
  - apply Hpresent. vm_compute. reflexivity.
Defined.

(** ** The size of what is stored *)

Lemma stored_size_cases env args d source img :
  stored_size env args d source img →
  let rw := requestWidth args in
  let rh := requestHeight args in
  let aspectRatio :=
    Num.div (or_zero (Num.of_N (img_width source)))
            (or_zero (Num.of_N (img_height source))) in
  (Num.lt rw (Num.of_Z 256) = false → Num.lt rh (Num.of_Z 256) = false →
   img = source) ∧
  (Num.lt rh (Num.of_Z 256) = true →
   positive_integer rh = Some (img_height img) ∧
   positive_integer (Num.round (Num.mul rh aspectRatio))
   = Some (img_width img)) ∧
  (Num.lt rw (Num.of_Z 256) = true → Num.lt rh (Num.of_Z 256) = false →
   positive_integer rw = Some (img_width img) ∧
   positive_integer (Num.round (Num.div rw aspectRatio))
   = Some (img_height img)).
Proof.
  intros [_ Hsize] rw rh aspectRatio. revert Hsize.
  unfold target_dimensions. fold rw rh aspectRatio.
  destruct (Num.lt rw (Num.of_Z 256)), (Num.lt rh (Num.of_Z 256)); simpl;
    intros Hsize; split_and!; try done; by intros; destruct Hsize.
Qed.

(** X17: what a successful png or jpg call stores for each image the API
    returned.  With no requested dimension below 256 it is the decoded
    image as the API sent it.  With the requested height below 256 the
    stored height is the requested height and the stored width is
    round(height * aspectRatio).  With only the requested width below 256
    the stored width is the requested width and the stored height is
    round(width / aspectRatio).  The aspect ratio is the decoded image's
    width over its height. *)
Theorem stored_images_have_the_requested_size env request w results w' :
  handler env request w = (inr results, w') →
  format_of (arguments request) ≠ "svg" →
  let args := arguments request in
  let rw := requestWidth args in
  let rh := requestHeight args in
  ∃ data, images_create env (api_request args) = inr data ∧
  ∀ i r, results !! i = Some r →
    ∃ d payload source filepath img,
      data !! i = Some d ∧
      d !! "b64_json" = Some (JSString payload) ∧
      decode env payload = Some source ∧
      filepath_of r = JSString filepath ∧
      files w' !! filepath
      = Some (ImageFile (codec_of (format_of args)) img) ∧
      let aspectRatio :=
        Num.div (or_zero (Num.of_N (img_width source)))
                (or_zero (Num.of_N (img_height source))) in
      (Num.lt rw (Num.of_Z 256) = false →
       Num.lt rh (Num.of_Z 256) = false → img = source) ∧
      (Num.lt rh (Num.of_Z 256) = true →
       positive_integer rh = Some (img_height img) ∧
       positive_integer (Num.round (Num.mul rh aspectRatio))
       = Some (img_width img)) ∧
      (Num.lt rw (Num.of_Z 256) = true →
       Num.lt rh (Num.of_Z 256) = false →
       positive_integer rw = Some (img_width img) ∧
       positive_integer (Num.round (Num.div rw aspectRatio))
       = Some (img_height img)).
Proof.
  intros (Hname & Hvalid & data & w2 & Hdata & _ & _ & Hall)
    %handler_success_inv Hsvg args rw rh.
  assert (Hformat : format_of args = "png" ∨ format_of args = "jpg").
  { destruct (valid_format _ Hvalid) as [?|[?|?]]; auto. done. }
  exists data. split; [done|]. intros i r Hr.
  destruct (process_all_stored _ _ _ _ Hformat _ _ _ _ Hall i r Hr)
    as (d & Hd & ts & source & img & Hsize & -> & Hfile).
  pose proof Hsize as [(payload & Hpayload & Hdecode) _].
  eexists d, payload, source, _, img.
  rewrite filepath_of_entry.
  split_and!; [done..|]. by apply (stored_size_cases env args d).
Qed.

Lemma stored_images_have_the_requested_size_witness :
  let request := Demo.call (<["width" := JSNumber (Num.of_Z 100)]>
                           (<["height" := JSNumber (Num.of_Z 50)]>
                              {["prompt" := JSString "a cat"]})) in
  ∃ results w',
    handler Demo.env request Demo.empty_world = (inr results, w') ∧
    format_of (arguments request) ≠ "svg" ∧
    files w' !! "/home/user/output/image_1700000000001_1.png"
    = Some (ImageFile PNG (mkImage 67 50)) ∧
    ∀ i r, results !! i = Some r →
      ∃ filepath img,
        filepath_of r = JSString filepath ∧
        files w' !! filepath = Some (ImageFile PNG img) ∧
        img_height img = 50%N.
Proof.
  intros request.
  assert (Hok : outcome_code (handler Demo.env request Demo.empty_world).1
                = None) by (vm_compute; reflexivity).
  assert (Hfile :
    files (handler Demo.env request Demo.empty_world).2
      !! "/home/user/output/image_1700000000001_1.png"
    = Some (ImageFile PNG (mkImage 67 50))) by (vm_compute; reflexivity).
  destruct (handler Demo.env request Demo.empty_world) as [[e|results] w']
    eqn:Hrun; [discriminate Hok|].
  exists results, w'. split; [reflexivity|].
  split; [vm_compute; discriminate|]. split; [exact Hfile|].
  destruct (stored_images_have_the_requested_size Demo.env request
              Demo.empty_world results w' Hrun) as (data & _ & Hstored).
  { vm_compute. discriminate. }
  intros i r Hr.
  destruct (Hstored i r Hr)
    as (d & payload & source & filepath & img & _ & _ & _ & Hfp & Hf & Hsize).
  destruct Hsize as (_ & Hheight & _).
  destruct Hheight as [Hh _]; [vm_compute; reflexivity|].
  exists filepath, img. split; [exact Hfp|]. split; [exact Hf|].
  vm_compute in Hh. by injection Hh.
Defined.

(** ** Payloads that are not images *)




